(** * dyff: JSON report renderer and report filters

    A shallow embedding of [pkg/dyff/output_json.go] and of the report
    filters ([filter], [Filter], [Exclude], [FilterRegexp], [ExcludeRegexp]).

    Conventions of the embedding:
    - a Go string is a [string] (a sequence of bytes);
    - a Go pointer that may be nil is an [option];
    - a Go function returning [(T, error)] returns a pair [T * option error],
      [None] being the nil error;
    - a Go function that can panic returns in [exec];
    - the packages the code imports (ytbx, regexp, neat, encoding/...) are
      interfaces, given as type classes. *)

From Stdlib Require Import List String Ascii ZArith NArith Bool Arith Lia.
From Stdlib Require Import DecimalString Permutation.
Import ListNotations.
Local Open Scope string_scope.

Set Implicit Arguments.

(* ================================================================== *)
(** ** Go basics *)

(** The [error] interface: a value that carries its message. *)
Record error : Type := errors_New { Error : string }.

(** A call either returns or panics (nil dereference, [MustCompile]). *)
Inductive exec (A : Type) : Type :=
| Returns (a : A)
| Panics.
Arguments Panics {A}.

Definition exec_bind {A B} (m : exec A) (k : A -> exec B) : exec B :=
  match m with
  | Returns a => k a
  | Panics => Panics
  end.

Declare Scope exec_scope.
Delimit Scope exec_scope with exec.
Notation "x <- m ;; k" := (exec_bind m (fun x => k))
  (at level 61, m at next level, right associativity) : exec_scope.
Notation "' p <- m ;; k" := (exec_bind m (fun p => k))
  (at level 61, p pattern, m at next level, right associativity) : exec_scope.
Local Open Scope exec_scope.

(** Dereference of a pointer: panics on nil. *)
Definition deref {A} (p : option A) : exec A :=
  match p with
  | Some a => Returns a
  | None => Panics
  end.

Definition is_nil {A} (p : option A) : bool :=
  match p with
  | Some _ => false
  | None => true
  end.

(** [strings.HasPrefix(s, prefix)]. *)
Definition strings_HasPrefix (s prefix : string) : bool := String.prefix prefix s.

Definition byte_of_Z (z : Z) : ascii := ascii_of_N (Z.to_N (z mod 256)).

(** [string(r)] for a rune [r]: its UTF-8 encoding, U+FFFD for a value that
    is no Unicode scalar value. *)
Definition string_of_rune (r : Z) : string :=
  let r := if ((r <? 0) || (0x10FFFF <? r) || ((0xD800 <=? r) && (r <=? 0xDFFF)))%Z
           then 0xFFFD%Z else r in
  let cont (z : Z) := byte_of_Z (Z.lor 0x80 (Z.land z 0x3F)) in
  if (r <=? 0x7F)%Z then
    String (byte_of_Z r) ""
  else if (r <=? 0x7FF)%Z then
    String (byte_of_Z (Z.lor 0xC0 (Z.shiftr r 6))) (String (cont r) "")
  else if (r <=? 0xFFFF)%Z then
    String (byte_of_Z (Z.lor 0xE0 (Z.shiftr r 12)))
      (String (cont (Z.shiftr r 6)) (String (cont r) ""))
  else
    String (byte_of_Z (Z.lor 0xF0 (Z.shiftr r 18)))
      (String (cont (Z.shiftr r 12))
         (String (cont (Z.shiftr r 6)) (String (cont r) ""))).

(* ================================================================== *)
(** ** Data model *)

(** [yaml.v3]'s [Node], with the fields the code reads.  [Kind] is a
    [uint32]; children are pointers. *)
#[warnings="-register-all"] Inductive Node : Type := mkNode {
  Node_Kind : N;
  Node_Tag : string;
  Node_Value : string;
  Node_Content : list (option Node)
}.

Definition DocumentNode : N := 1.
Definition SequenceNode : N := 2.
Definition MappingNode : N := 4.
Definition ScalarNode : N := 8.
Definition AliasNode : N := 16.

(** [ytbx.InputFile]: a location and its documents. *)
Record InputFile : Type := mkInputFile {
  Location : string;
  Documents : list (option Node)
}.

(** [Detail]: a kind (a rune) and the two nodes. *)
Record Detail : Type := mkDetail {
  Detail_From : option Node;
  Detail_To : option Node;
  Detail_Kind : Z
}.

(** The path layer, [github.com/gonvenience/ytbx]. *)
Class PathLayer : Type := {
  Path : Type;
  Path_String : Path -> string;
  ParsePathStringUnsafe : string -> Path * option error
}.

(** The regular expressions of package [regexp]. *)
Class RegexpLayer : Type := {
  Regexp : Type;
  regexp_Compile : string -> Regexp + error;
  MatchString : Regexp -> string -> bool
}.

Section Reports.
Context {PL : PathLayer}.

Record Diff : Type := mkDiff {
  Diff_Path : option Path;
  Diff_Details : list Detail
}.

Record Report : Type := mkReport {
  Report_From : InputFile;
  Report_To : InputFile;
  Report_Diffs : list Diff
}.

(* ================================================================== *)
(** ** Report filter *)

(** [Report.filter]: takes the predicate [hasPath] on path pointers; the
    loop appends to [result.Diffs], which starts empty. *)
Definition filter (r : Report) (hasPath : option Path -> bool) : Report :=
  {| Report_From := Report_From r;
     Report_To := Report_To r;
     Report_Diffs :=
       fold_left
         (fun (result : list Diff) (diff : Diff) =>
            if hasPath (Diff_Path diff) then (result ++ [diff])%list else result)
         (Report_Diffs r) [] |}.

(** The closure of [Filter]: the paths are parsed again for each diff;
    [&&] does not evaluate [filterPath.String()] on a nil path. *)
Fixpoint Filter_hasPath (paths : list string) (filterPath : option Path) : bool :=
  match paths with
  | [] => false
  | pathString :: paths' =>
      let '(path, err) := ParsePathStringUnsafe pathString in
      if is_nil err
         && match filterPath with
            | Some fp => String.eqb (Path_String path) (Path_String fp)
            | None => false
            end
      then true
      else Filter_hasPath paths' filterPath
  end.

Definition Filter (r : Report) (paths : list string) : Report :=
  match paths with
  | [] => r
  | _ => filter r (Filter_hasPath paths)
  end.

Definition isGoPath (p : string) : bool := strings_HasPrefix p "/".

(** The first loop of [Exclude]: the slice [ps], filled front to back with
    [ps[i] = path.String()], or the error of the first path that is
    refused. *)
Fixpoint Exclude_paths (paths : list string) : list string + error :=
  match paths with
  | [] => inl []
  | pathString :: paths' =>
      if negb (isGoPath pathString) then
        inr (errors_New
               ("exclude path should be a Go Patch, but got " ++ pathString))
      else
        let '(path, err) := ParsePathStringUnsafe pathString in
        match err with
        | Some e => inr e
        | None =>
            match Exclude_paths paths' with
            | inl ps => inl (Path_String path :: ps)
            | inr e => inr e
            end
        end
  end.

(** The closure of [Exclude].  Its [err] is the named result of [Exclude],
    which is still nil when [filter] runs. *)
Fixpoint Exclude_hasPath (err : option error) (ps : list string)
    (filterPath : option Path) : bool :=
  match ps with
  | [] => true
  | pathString :: ps' =>
      if is_nil err
         && match filterPath with
            | Some fp => strings_HasPrefix (Path_String fp) pathString
            | None => false
            end
      then false
      else Exclude_hasPath err ps' filterPath
  end.

Definition Exclude (r : Report) (paths : list string) : Report * option error :=
  match paths with
  | [] => (r, None)
  | _ =>
      match Exclude_paths paths with
      | inr e => (r, Some e)
      | inl ps => (filter r (Exclude_hasPath None ps), None)
      end
  end.

Context {RL : RegexpLayer}.

(** [regexp.MustCompile]: panics when the pattern does not compile. *)
Definition regexp_MustCompile (pattern : string) : exec Regexp :=
  match regexp_Compile pattern with
  | inl re => Returns re
  | inr _ => Panics
  end.

(** The loop [regexps[i] = regexp.MustCompile(pattern[i])]: the slice is
    filled front to back. *)
Fixpoint compile_patterns (pattern : list string) : exec (list Regexp) :=
  match pattern with
  | [] => Returns []
  | p :: pattern' =>
      re <- regexp_MustCompile p ;;
      regexps <- compile_patterns pattern' ;;
      Returns (re :: regexps)
  end.

Fixpoint FilterRegexp_hasPath (regexps : list Regexp) (filterPath : option Path)
    : bool :=
  match regexps with
  | [] => false
  | regexp :: regexps' =>
      if match filterPath with
         | Some fp => MatchString regexp (Path_String fp)
         | None => false
         end
      then true
      else FilterRegexp_hasPath regexps' filterPath
  end.

Definition FilterRegexp (r : Report) (pattern : list string) : exec Report :=
  match pattern with
  | [] => Returns r
  | _ =>
      regexps <- compile_patterns pattern ;;
      Returns (filter r (FilterRegexp_hasPath regexps))
  end.

Fixpoint ExcludeRegexp_hasPath (regexps : list Regexp) (filterPath : option Path)
    : bool :=
  match regexps with
  | [] => true
  | regexp :: regexps' =>
      if match filterPath with
         | Some fp => MatchString regexp (Path_String fp)
         | None => false
         end
      then false
      else ExcludeRegexp_hasPath regexps' filterPath
  end.

Definition ExcludeRegexp (r : Report) (pattern : list string) : exec Report :=
  match pattern with
  | [] => Returns r
  | _ =>
      regexps <- compile_patterns pattern ;;
      Returns (filter r (ExcludeRegexp_hasPath regexps))
  end.

End Reports.

(* ================================================================== *)
(** ** Report renderer *)

Record JSONDiffDetail : Type := mkJSONDiffDetail {
  JSONDiffDetail_Kind : string;
  JSONDiffDetail_Addition : string;
  JSONDiffDetail_Removal : string
}.

Record JSONDiff : Type := mkJSONDiff {
  JSONDiff_Path : string;
  JSONDiff_Details : list JSONDiffDetail
}.

Record JSONDiffSummary : Type := mkJSONDiffSummary {
  Changes : Z
}.

Record JSONReportSpec : Type := mkJSONReportSpec {
  Summary : JSONDiffSummary;
  Differences : list JSONDiff
}.

(** The zero values [JSONDiffDetail{}], [JSONDiff{}] and [JSONReportSpec{}]. *)
Definition JSONDiffDetail_zero : JSONDiffDetail := mkJSONDiffDetail "" "" "".
Definition JSONDiff_zero : JSONDiff := mkJSONDiff "" [].
Definition JSONReportSpec_zero : JSONReportSpec :=
  mkJSONReportSpec (mkJSONDiffSummary 0) [].

(** The encoders the renderer calls: [neat]'s compact JSON of a node,
    [encoding/json] on a [[]string] and on a [JSONReportSpec],
    [base64.StdEncoding.DecodeString] and [hex.Dump]. *)
Class Encoders : Type := {
  ToCompactJSON : Node -> string * option error;
  json_Marshal_strings : list string -> string * option error;
  json_Marshal_report : JSONReportSpec -> string * option error;
  base64_DecodeString : string -> string * option error;
  hex_Dump : string -> string
}.

(** What the renderer uses of package [dyff] itself and is declared in
    other files of the package: the four kind constants (runes), the type
    name of a node and the rendering of a path. *)
Class DyffCore {PL : PathLayer} : Type := {
  ADDITION : Z;
  REMOVAL : Z;
  MODIFICATION : Z;
  ORDERCHANGE : Z;
  humanReadableType : option Node -> exec string;
  pathToString : option Path -> bool -> bool -> exec string
}.

(** [make([]T, n)] and [s[i] = v]; the assignment panics out of range. *)
Definition make {A} (zero : A) (n : nat) : list A := repeat zero n.

Fixpoint slice_set {A} (s : list A) (i : nat) (v : A) : exec (list A) :=
  match s, i with
  | [], _ => Panics
  | _ :: s', O => Returns (v :: s')
  | x :: s', S i' => s'' <- slice_set s' i' v ;; Returns (x :: s'')
  end.

Section Renderer.
Context {PL : PathLayer} {EN : Encoders} {DC : DyffCore}.

(** [JSONReport]: the embedded [Report] and the flags.  The float
    [MinorChangeThreshold] is not read by this renderer and is left out. *)
Record JSONReport : Type := mkJSONReport {
  JSONReport_Report : Report;
  NoTableStyle : bool;
  DoNotInspectCerts : bool;
  OmitHeader : bool;
  UseGoPatchPaths : bool
}.

Definition jsonString (node : option Node) : string * option error :=
  match node with
  | None => ("null", None)
  | Some n => ToCompactJSON n
  end.

Definition generateJSONDetailOutputModification (detail : Detail)
    : exec (JSONDiffDetail * option error) :=
  fromType <- humanReadableType (Detail_From detail) ;;
  toType <- humanReadableType (Detail_To detail) ;;
  let jsonDetail := mkJSONDiffDetail (string_of_rune (Detail_Kind detail)) "" "" in
  if String.eqb fromType "string" && String.eqb toType "string" then
    to <- deref (Detail_To detail) ;;
    from <- deref (Detail_From detail) ;;
    Returns (mkJSONDiffDetail (JSONDiffDetail_Kind jsonDetail)
               (Node_Value to) (Node_Value from), None)
  else if String.eqb fromType "binary" && String.eqb toType "binary" then
    fromNode <- deref (Detail_From detail) ;;
    let '(from, err) := base64_DecodeString (Node_Value fromNode) in
    match err with
    | Some e => Returns (jsonDetail, Some e)
    | None =>
        toNode <- deref (Detail_To detail) ;;
        let '(to, err) := base64_DecodeString (Node_Value toNode) in
        match err with
        | Some e => Returns (jsonDetail, Some e)
        | None =>
            Returns (mkJSONDiffDetail (JSONDiffDetail_Kind jsonDetail)
                       (hex_Dump to) (hex_Dump from), None)
        end
    end
  else
    let '(from, err) := jsonString (Detail_From detail) in
    match err with
    | Some e => Returns (jsonDetail, Some e)
    | None =>
        let '(to, err) := jsonString (Detail_To detail) in
        match err with
        | Some e => Returns (jsonDetail, Some e)
        | None =>
            Returns (mkJSONDiffDetail (JSONDiffDetail_Kind jsonDetail) to from,
                     None)
        end
    end.

(** The loop of the closure [asJSONArray]: [result[i]] is first set to
    [entry.Value], and overwritten with [jsonString(entry)] when that value
    is the empty string.  [inr] is the early [return "", err]. *)
Fixpoint asJSONArray_loop (content : list (option Node)) (i : nat)
    (result : list string) : exec (list string + error) :=
  match content with
  | [] => Returns (inl result)
  | entry :: content' =>
      e <- deref entry ;;
      result <- slice_set result i (Node_Value e) ;;
      if String.eqb (Node_Value e) "" then
        let '(s, err) := jsonString entry in
        match err with
        | Some er => Returns (inr er)
        | None =>
            result <- slice_set result i s ;;
            asJSONArray_loop content' (S i) result
        end
      else asJSONArray_loop content' (S i) result
  end.

Definition asJSONArray (sequenceNode : option Node) : exec (string * option error) :=
  node <- deref sequenceNode ;;
  r <- asJSONArray_loop (Node_Content node) 0
         (make "" (List.length (Node_Content node))) ;;
  match r with
  | inr e => Returns ("", Some e)
  | inl result =>
      let '(b, err) := json_Marshal_strings result in
      match err with
      | Some e => Returns ("", Some e)
      | None => Returns (b, None)
      end
  end.

Definition generateJSONDetailOutputOrderchange (detail : Detail)
    : exec (JSONDiffDetail * option error) :=
  let jsonDetail := mkJSONDiffDetail (string_of_rune (Detail_Kind detail)) "" "" in
  fromNode <- deref (Detail_From detail) ;;
  if N.eqb (Node_Kind fromNode) SequenceNode then
    '(from, err) <- asJSONArray (Detail_From detail) ;;
    match err with
    | Some e => Returns (jsonDetail, Some e)
    | None =>
        '(to, err) <- asJSONArray (Detail_To detail) ;;
        match err with
        | Some e => Returns (jsonDetail, Some e)
        | None =>
            Returns (mkJSONDiffDetail (JSONDiffDetail_Kind jsonDetail) to from,
                     None)
        end
    end
  else Returns (jsonDetail, None).

(** The [switch detail.Kind]: the cases are tried in order. *)
Definition generateJSONDetailOutput (detail : Detail)
    : exec (JSONDiffDetail * option error) :=
  if Z.eqb (Detail_Kind detail) ADDITION then
    let '(s, err) := jsonString (Detail_To detail) in
    match err with
    | Some e => Returns (JSONDiffDetail_zero, Some e)
    | None => Returns (mkJSONDiffDetail (string_of_rune ADDITION) s "", None)
    end
  else if Z.eqb (Detail_Kind detail) REMOVAL then
    let '(s, err) := jsonString (Detail_From detail) in
    match err with
    | Some e => Returns (JSONDiffDetail_zero, Some e)
    | None => Returns (mkJSONDiffDetail (string_of_rune REMOVAL) "" s, None)
    end
  else if Z.eqb (Detail_Kind detail) MODIFICATION then
    generateJSONDetailOutputModification detail
  else if Z.eqb (Detail_Kind detail) ORDERCHANGE then
    generateJSONDetailOutputOrderchange detail
  else
    Returns (JSONDiffDetail_zero,
             Some (errors_New ("unsupported detail type "
                               ++ string_of_rune (Detail_Kind detail)))).

(** The loop of [generateJSONDiffOutput]; [inr] is [return nil, err]. *)
Fixpoint generateJSONDiffOutput_loop (ds : list Detail) (i : nat)
    (details : list JSONDiffDetail) : exec (list JSONDiffDetail + error) :=
  match ds with
  | [] => Returns (inl details)
  | detail :: ds' =>
      '(generatedOutput, err) <- generateJSONDetailOutput detail ;;
      match err with
      | Some e => Returns (inr e)
      | None =>
          details <- slice_set details i generatedOutput ;;
          generateJSONDiffOutput_loop ds' (S i) details
      end
  end.

Definition generateJSONDiffOutput (diff : Diff)
    (useGoPatchPaths showPathRoot : bool) : exec (option JSONDiff * option error) :=
  r <- generateJSONDiffOutput_loop (Diff_Details diff) 0
         (make JSONDiffDetail_zero (List.length (Diff_Details diff))) ;;
  match r with
  | inr e => Returns (None, Some e)
  | inl details =>
      path <- pathToString (Diff_Path diff) useGoPatchPaths showPathRoot ;;
      Returns (Some (mkJSONDiff path details), None)
  end.

(** The loop of [GenReport]; [inr] is [return JSONReportSpec{}, err]. *)
Fixpoint GenReport_loop (report : JSONReport) (showPathRoot : bool)
    (ds : list Diff) (i : nat) (diffs : list JSONDiff)
    : exec (list JSONDiff + error) :=
  match ds with
  | [] => Returns (inl diffs)
  | diff :: ds' =>
      '(jsonDiff, err) <- generateJSONDiffOutput diff (UseGoPatchPaths report)
                            showPathRoot ;;
      match err with
      | Some e => Returns (inr e)
      | None =>
          d <- deref jsonDiff ;;
          diffs <- slice_set diffs i d ;;
          GenReport_loop report showPathRoot ds' (S i) diffs
      end
  end.

Definition GenReport (report : JSONReport) : exec (JSONReportSpec * option error) :=
  let r := JSONReport_Report report in
  let showPathRoot := (1 <? List.length (Documents (Report_From r)))%nat in
  res <- GenReport_loop report showPathRoot (Report_Diffs r) 0
           (make JSONDiff_zero (List.length (Report_Diffs r))) ;;
  match res with
  | inr e => Returns (JSONReportSpec_zero, Some e)
  | inl diffs =>
      Returns (mkJSONReportSpec
                 (mkJSONDiffSummary (Z.of_nat (List.length (Report_Diffs r))))
                 diffs, None)
  end.

End Renderer.

(* ================================================================== *)
(** ** Writing the report: [io.Writer] and [bufio.Writer] *)

(** An [io.Writer]: [Write] consumes bytes, answers how many it took and
    an error, and leaves the sink in a new state. *)
Class io_Writer (W : Type) : Type := {
  Write : W -> string -> (Z * option error) * W
}.

Fixpoint str_take (n : nat) (s : string) : string :=
  match n, s with
  | S n', String c s' => String c (str_take n' s')
  | _, _ => ""
  end.

Fixpoint str_drop (n : nat) (s : string) : string :=
  match n, s with
  | S n', String _ s' => str_drop n' s'
  | _, _ => s
  end.

Definition defaultBufSize : nat := 4096.

Definition io_ErrShortWrite : error := errors_New "short write".

(** [bufio.Writer] over a sink of type [W]: [bufio_buf] is [buf[0:n]], the
    bytes accepted and not yet written to [bufio_wr]. *)
Record bufio_Writer (W : Type) : Type := mk_bufio_Writer {
  bufio_err : option error;
  bufio_buf : string;
  bufio_wr : W
}.

Section Bufio.
Context {W : Type} {IOW : io_Writer W}.

(** [bufio.NewWriter(out)], for a sink that is not itself a [bufio.Writer]. *)
Definition bufio_NewWriter (out : W) : bufio_Writer W :=
  mk_bufio_Writer None "" out.

Definition Available (b : bufio_Writer W) : nat :=
  defaultBufSize - String.length (bufio_buf b).

(** [func (b *Writer) Flush() error].  A sink keeps the contract of
    [io.Writer], [0 <= n <= len(p)]. *)
Definition Flush (b : bufio_Writer W) : bufio_Writer W * option error :=
  match bufio_err b with
  | Some e => (b, Some e)
  | None =>
      if (String.length (bufio_buf b) =? 0)%nat then (b, None)
      else
        let '((n, err), wr) := Write (bufio_wr b) (bufio_buf b) in
        let err :=
          if (n <? Z.of_nat (String.length (bufio_buf b)))%Z && is_nil err
          then Some io_ErrShortWrite else err in
        match err with
        | Some e =>
            (mk_bufio_Writer (Some e) (str_drop (Z.to_nat n) (bufio_buf b)) wr,
             Some e)
        | None => (mk_bufio_Writer None "" wr, None)
        end
  end.

(** The [for len(s) > b.Available() && b.err == nil] loop of
    [WriteString], for a sink that is a plain [io.Writer]. *)
Fixpoint WriteString_loop (fuel : nat) (b : bufio_Writer W) (s : string) (nn : Z)
    : bufio_Writer W * string * Z :=
  match fuel with
  | O => (b, s, nn)
  | S fuel' =>
      if (Available b <? String.length s)%nat && is_nil (bufio_err b) then
        let n := Nat.min (Available b) (String.length s) in
        let b := mk_bufio_Writer (bufio_err b) (bufio_buf b ++ str_take n s)
                   (bufio_wr b) in
        let '(b, _) := Flush b in
        WriteString_loop fuel' b (str_drop n s) (nn + Z.of_nat n)
      else (b, s, nn)
  end.

(** [func (b *Writer) WriteString(s string) (int, error)]. *)
Definition WriteString (b : bufio_Writer W) (s : string)
    : bufio_Writer W * (Z * option error) :=
  let '(b, s, nn) := WriteString_loop (2 * String.length s + 2) b s 0 in
  match bufio_err b with
  | Some e => (b, (nn, Some e))
  | None =>
      let n := Nat.min (Available b) (String.length s) in
      (mk_bufio_Writer (bufio_err b) (bufio_buf b ++ str_take n s) (bufio_wr b),
       ((nn + Z.of_nat n)%Z, None))
  end.

Context {PL : PathLayer} {EN : Encoders} {DC : DyffCore}.

(** [func (report *JSONReport) WriteReport(out io.Writer) error].  The
    deferred [writer.Flush()] runs last, on every way out, and its result
    is dropped.  The second component is the sink afterwards. *)
Definition WriteReport (report : JSONReport) (out : W) : exec (option error) * W :=
  let writer := bufio_NewWriter out in
  let '(res, writer) :=
    match GenReport report with
    | Panics => (Panics, writer)
    | Returns (_, Some e) => (Returns (Some e), writer)
    | Returns (r, None) =>
        let '(b, err) := json_Marshal_report r in
        match err with
        | Some e => (Returns (Some e), writer)
        | None =>
            let '(writer, (_, err)) := WriteString writer b in
            (Returns err, writer)
        end
    end in
  let '(writer, _) := Flush writer in
  (res, bufio_wr writer).

End Bufio.

(* ================================================================== *)
(** ** A reference instance of the interfaces

    Small executable instances of the path layer, the regular expressions,
    the encoders and the sink, on which the definitions above run on
    concrete reports.  The theorems below hold for every instance. *)

Module Sample.

Definition dq : string := String (ascii_of_nat 34) "".
Definition backslash : string := String (ascii_of_nat 92) "".
Definition slash : ascii := ascii_of_nat 47.
Definition dot : ascii := ascii_of_nat 46.

Fixpoint join (sep : string) (l : list string) : string :=
  match l with
  | [] => ""
  | [x] => x
  | x :: l' => x ++ sep ++ join sep l'
  end.

(** [split_on c s]: the fields of [s] between occurrences of [c]. *)
Fixpoint split_on (c : ascii) (s : string) : list string :=
  match s with
  | EmptyString => [""]
  | String a s' =>
      if Ascii.eqb a c then "" :: split_on c s'
      else
        match split_on c s' with
        | [] => [String a ""]
        | f :: fs => String a f :: fs
        end
  end.

(** Paths as lists of segments; the canonical string is the
    slash-delimited one.  A path with an empty segment does not parse. *)
Definition parse_path (s : string) : list string * option error :=
  let segments :=
    match s with
    | String a s' =>
        if Ascii.eqb a slash then
          match s' with
          | EmptyString => []
          | _ => split_on slash s'
          end
        else split_on dot s
    | EmptyString => [""]
    end in
  if existsb (fun f => String.eqb f "") segments
  then ([], Some (errors_New ("invalid path: " ++ s)))
  else (segments, None).

#[export] Instance paths : PathLayer := {|
  Path := list string;
  Path_String := fun p => String slash (join (String slash "") p);
  ParsePathStringUnsafe := parse_path
|}.

(** Patterns without operators: a pattern matches the strings that contain
    it; a pattern with an operator character does not compile. *)
Definition is_operator (a : ascii) : bool :=
  existsb (Ascii.eqb a)
    (list_ascii_of_string ("\.+*?()|[]{}^$")).

Definition compile_literal (p : string) : string + error :=
  if existsb is_operator (list_ascii_of_string p)
  then inr (errors_New ("error parsing regexp: " ++ p))
  else inl p.

Definition contains (s sub : string) : bool :=
  match String.index 0 sub s with
  | Some _ => true
  | None => false
  end.

#[export] Instance regexps : RegexpLayer := {|
  Regexp := string;
  regexp_Compile := compile_literal;
  MatchString := fun re s => contains s re
|}.

(** *** JSON text *)

Definition hex_digit (n : N) : ascii :=
  match String.get (N.to_nat n) "0123456789abcdef" with
  | Some a => a
  | None => "0"%char
  end.

Definition hex_byte (a : ascii) : string :=
  let n := N_of_ascii a in
  String (hex_digit (N.div n 16)) (String (hex_digit (N.modulo n 16)) "").

(** A byte inside a JSON string as [encoding/json] writes it, HTML escaping
    on, the control characters other than line feed, carriage return and
    tab in the [\u00xx] form.  Bytes from 0x80 on are copied: the input is
    taken to be valid UTF-8 without U+2028 and U+2029. *)
Definition json_escape_byte (a : ascii) : string :=
  let n := N_of_ascii a in
  if N.eqb n 34 then backslash ++ dq
  else if N.eqb n 92 then backslash ++ backslash
  else if N.eqb n 10 then backslash ++ "n"
  else if N.eqb n 13 then backslash ++ "r"
  else if N.eqb n 9 then backslash ++ "t"
  else if N.ltb n 32 || N.eqb n 60 || N.eqb n 62 || N.eqb n 38
  then backslash ++ "u00" ++ hex_byte a
  else String a "".

Fixpoint json_escape (s : string) : string :=
  match s with
  | EmptyString => ""
  | String a s' => json_escape_byte a ++ json_escape s'
  end.

Definition json_quote (s : string) : string := dq ++ json_escape s ++ dq.

Definition json_key (k : string) : string := dq ++ k ++ dq ++ ":".

Definition marshal_strings (l : list string) : string :=
  "[" ++ join "," (map json_quote l) ++ "]".

Definition decimal (z : Z) : string :=
  DecimalString.NilZero.string_of_int (Z.to_int z).

(** The struct tags: [addition] and [removal] are [omitempty]. *)
Definition marshal_detail (d : JSONDiffDetail) : string :=
  "{" ++ json_key "kind" ++ json_quote (JSONDiffDetail_Kind d)
  ++ (if String.eqb (JSONDiffDetail_Addition d) "" then ""
      else "," ++ json_key "addition" ++ json_quote (JSONDiffDetail_Addition d))
  ++ (if String.eqb (JSONDiffDetail_Removal d) "" then ""
      else "," ++ json_key "removal" ++ json_quote (JSONDiffDetail_Removal d))
  ++ "}".

Definition marshal_diff (d : JSONDiff) : string :=
  "{" ++ json_key "path" ++ json_quote (JSONDiff_Path d)
  ++ "," ++ json_key "details"
  ++ "[" ++ join "," (map marshal_detail (JSONDiff_Details d)) ++ "]}".

(** [differences] is [omitempty]: left out for an empty slice. *)
Definition marshal_report (r : JSONReportSpec) : string :=
  "{" ++ json_key "summary"
  ++ "{" ++ json_key "changes" ++ decimal (Changes (Summary r)) ++ "}"
  ++ match Differences r with
     | [] => ""
     | ds => "," ++ json_key "differences"
             ++ "[" ++ join "," (map marshal_diff ds) ++ "]"
     end
  ++ "}".

(** Compact JSON of a node, in the manner of [neat]: scalars by tag,
    sequences and mappings with [", "] and [": "] separators.  A nil child
    or a node of another kind is an error. *)
Fixpoint pair_up (l : list string) : list string :=
  match l with
  | k :: v :: l' => (k ++ ": " ++ v) :: pair_up l'
  | _ => []
  end.

Fixpoint compact (n : Node) : string + error :=
  match n with
  | mkNode kind tag value content =>
      let children :=
        (fix go (l : list (option Node)) : list string + error :=
           match l with
           | [] => inl []
           | None :: _ => inr (errors_New "nil node")
           | Some c :: l' =>
               match compact c with
               | inr e => inr e
               | inl s =>
                   match go l' with
                   | inr e => inr e
                   | inl ss => inl (s :: ss)
                   end
               end
           end) content in
      if N.eqb kind ScalarNode then
        if String.eqb tag "!!str" then inl (json_quote value)
        else if String.eqb tag "!!null" || String.eqb value "" then inl "null"
        else inl value
      else if N.eqb kind SequenceNode then
        match children with
        | inr e => inr e
        | inl ss => inl ("[" ++ join ", " ss ++ "]")
        end
      else if N.eqb kind MappingNode then
        match children with
        | inr e => inr e
        | inl ss => inl ("{" ++ join ", " (pair_up ss) ++ "}")
        end
      else inr (errors_New "unsupported node kind")
  end.

Definition compact_json (n : Node) : string * option error :=
  match compact n with
  | inl s => (s, None)
  | inr e => ("", Some e)
  end.

(** *** Base64 and hex dump *)

Definition b64_value (a : ascii) : option Z :=
  let n := Z.of_N (N_of_ascii a) in
  if ((65 <=? n) && (n <=? 90))%Z then Some (n - 65)%Z
  else if ((97 <=? n) && (n <=? 122))%Z then Some (n - 71)%Z
  else if ((48 <=? n) && (n <=? 57))%Z then Some (n + 4)%Z
  else if (n =? 43)%Z then Some 62%Z
  else if (n =? 47)%Z then Some 63%Z
  else None.

Definition is_pad (a : ascii) : bool := Ascii.eqb a "="%char.

Definition is_newline (a : ascii) : bool :=
  N.eqb (N_of_ascii a) 10 || N.eqb (N_of_ascii a) 13.

(** The input bytes with their offsets, line breaks left out: the decoder
    skips them wherever they stand. *)
Fixpoint b64_indexed (i : nat) (s : string) : list (nat * ascii) :=
  match s with
  | EmptyString => []
  | String a s' =>
      if is_newline a then b64_indexed (S i) s'
      else (i, a) :: b64_indexed (S i) s'
  end.

Definition b64_bytes (v0 v1 v2 v3 : Z) : ascii * ascii * ascii :=
  let val := Z.lor (Z.lor (Z.shiftl v0 18) (Z.shiftl v1 12))
               (Z.lor (Z.shiftl v2 6) v3) in
  (byte_of_Z (Z.shiftr val 16), byte_of_Z (Z.shiftr val 8), byte_of_Z val).

(** The quanta of four characters of the standard, padded encoding.  The
    second component is the offset of a corrupt input byte. *)
Fixpoint b64_quanta (len : nat) (l : list (nat * ascii)) : string * option nat :=
  match l with
  | [] => ("", None)
  | (i0, c0) :: l1 =>
  match b64_value c0 with
  | None => ("", Some i0)
  | Some v0 =>
  match l1 with
  | [] => ("", Some (len - 1))
  | (i1, c1) :: l2 =>
  match b64_value c1 with
  | None => ("", Some i1)
  | Some v1 =>
  match l2 with
  | [] => ("", Some (len - 2))
  | (i2, c2) :: l3 =>
      let '(b0, b1, b2) := b64_bytes v0 v1 0 0 in
      if is_pad c2 then
        match l3 with
        | [] => ("", Some len)
        | (i3, c3) :: l4 =>
            if is_pad c3 then
              match l4 with
              | [] => (String b0 "", None)
              | (i4, _) :: _ => (String b0 "", Some i4)
              end
            else ("", Some (i3 - 1))
        end
      else
        match b64_value c2 with
        | None => ("", Some i2)
        | Some v2 =>
        match l3 with
        | [] => ("", Some (len - 3))
        | (i3, c3) :: l4 =>
            let '(b0, b1, b2) := b64_bytes v0 v1 v2 0 in
            if is_pad c3 then
              match l4 with
              | [] => (String b0 (String b1 ""), None)
              | (i4, _) :: _ => (String b0 (String b1 ""), Some i4)
              end
            else
              match b64_value c3 with
              | None => ("", Some i3)
              | Some v3 =>
                  let '(b0, b1, b2) := b64_bytes v0 v1 v2 v3 in
                  let '(rest, err) := b64_quanta len l4 in
                  (String b0 (String b1 (String b2 rest)), err)
              end
        end
        end
  end
  end
  end
  end
  end.

Definition b64_decode (s : string) : string * option error :=
  let '(bytes, err) := b64_quanta (String.length s) (b64_indexed 0 s) in
  match err with
  | None => (bytes, None)
  | Some off =>
      (bytes, Some (errors_New ("illegal base64 data at input byte "
                                ++ decimal (Z.of_nat off))))
  end.

Definition printable (a : ascii) : ascii :=
  let n := N_of_ascii a in
  if N.ltb n 32 || N.ltb 126 n then dot else a.

(** The cells of one line of [hex.Dump], from column [used] on: two hex
    digits and a space for a byte, blanks where the data has ended, one more
    space after the eighth cell and the bar after the sixteenth. *)
Fixpoint dump_cells (cols : nat) (used : nat) (data : list ascii) : string :=
  match cols with
  | O => ""
  | S cols' =>
      let cell :=
        match data with
        | a :: _ => hex_byte a ++ " "
        | [] => "   "
        end in
      let tail := if (used =? 7)%nat then " "
                  else if (used =? 15)%nat then " |" else "" in
      cell ++ tail ++ dump_cells cols' (S used) (List.tl data)
  end.

Definition hex8 (offset : nat) : string :=
  let n := N.of_nat offset in
  string_of_list_ascii
    (map (fun k => hex_digit (N.modulo (N.shiftr n (4 * k)) 16))
       [7; 6; 5; 4; 3; 2; 1; 0]%N).

Definition dump_line (offset : nat) (chunk : list ascii) : string :=
  hex8 offset ++ "  " ++ dump_cells 16 0 chunk
  ++ string_of_list_ascii (map printable chunk) ++ "|"
  ++ String (ascii_of_nat 10) "".

Fixpoint dump_lines (fuel : nat) (offset : nat) (data : list ascii) : string :=
  match fuel, data with
  | _, [] => ""
  | O, _ => ""
  | S fuel', _ =>
      dump_line offset (firstn 16 data)
      ++ dump_lines fuel' (offset + 16) (skipn 16 data)
  end.

Definition dump (data : string) : string :=
  dump_lines (String.length data) 0 (list_ascii_of_string data).

#[export] Instance encoders : Encoders := {|
  ToCompactJSON := compact_json;
  json_Marshal_strings := fun l => (marshal_strings l, None);
  json_Marshal_report := fun r => (marshal_report r, None);
  base64_DecodeString := b64_decode;
  hex_Dump := dump
|}.

(** The rest of package [dyff]: the kinds are the runes ['+'], ['-'],
    U+00B1 and U+21C6; a scalar is named after its tag, with [string] for
    [!!str]; a path is shown by its canonical string. *)
Definition type_name (node : option Node) : exec string :=
  n <- deref node ;;
  if N.eqb (Node_Kind n) DocumentNode then Returns "document"
  else if N.eqb (Node_Kind n) MappingNode then Returns "map"
  else if N.eqb (Node_Kind n) SequenceNode then Returns "list"
  else if N.eqb (Node_Kind n) ScalarNode then
    if String.eqb (Node_Tag n) "!!str" then Returns "string"
    else if String.prefix "!!" (Node_Tag n)
    then Returns (str_drop 2 (Node_Tag n))
    else Returns (Node_Tag n)
  else Panics.

Definition show_path (path : option (list string)) (useGoPatchPaths showPathRoot : bool)
    : exec string :=
  match path with
  | None => Returns "(root level)"
  | Some p =>
      let s := if useGoPatchPaths then Path_String p else join "." p in
      Returns (if showPathRoot then s ++ "  (document)" else s)
  end.

#[export] Instance core : DyffCore := {|
  ADDITION := 43;
  REMOVAL := 45;
  MODIFICATION := 177;
  ORDERCHANGE := 8646;
  humanReadableType := type_name;
  pathToString := show_path
|}.

(** A sink with room for [sink_room] more bytes: a write that does not fit
    takes what fits and fails. *)
Record Sink : Type := mkSink {
  sink_data : string;
  sink_room : nat
}.

Definition sink_full : error := errors_New "no space left on device".

Definition sink_write (w : Sink) (p : string) : (Z * option error) * Sink :=
  if (String.length p <=? sink_room w)%nat then
    ((Z.of_nat (String.length p), None),
     mkSink (sink_data w ++ p) (sink_room w - String.length p))
  else
    ((Z.of_nat (sink_room w), Some sink_full),
     mkSink (sink_data w ++ str_take (sink_room w) p) 0).

#[export] Instance sink_writer : io_Writer Sink := {| Write := sink_write |}.

(** Nodes and reports to run on. *)
Definition str (v : string) : Node := mkNode ScalarNode "!!str" v [].
Definition int (v : string) : Node := mkNode ScalarNode "!!int" v [].
Definition bin (v : string) : Node := mkNode ScalarNode "!!binary" v [].
Definition seq (l : list Node) : Node :=
  mkNode SequenceNode "!!seq" "" (map Some l).
Definition map_ (l : list Node) : Node :=
  mkNode MappingNode "!!map" "" (map Some l).

Definition file (docs : nat) : InputFile :=
  mkInputFile "a.yml" (repeat (Some (map_ [])) docs).

Definition at_path (s : string) : option (list string) :=
  Some (fst (parse_path s)).

(** A report of two diffs: one at the root, with a nil path, and one at
    [/spec/name]. *)
Definition root_diff : Diff :=
  mkDiff None [mkDetail (Some (str "a")) (Some (int "1")) MODIFICATION].

Definition name_diff : Diff :=
  mkDiff (at_path "/spec/name") [mkDetail None (Some (str "x")) ADDITION].

Definition report : Report :=
  mkReport (file 1) (file 1) [root_diff; name_diff].

Definition empty_report : Report := mkReport (file 1) (file 1) [].

Definition as_json (r : Report) : JSONReport :=
  mkJSONReport r false false false true.

(** The document of a report without diffs, 25 bytes. *)
Definition no_changes_document : string :=
  "{" ++ dq ++ "summary" ++ dq ++ ":{" ++ dq ++ "changes" ++ dq ++ ":0}}".

(** A report whose document is longer than the buffer of [bufio]. *)
Definition long_value : string := string_of_list_ascii (repeat "a"%char 4200).

Definition long_report : Report :=
  mkReport (file 1) (file 1)
    [mkDiff (at_path "/blob") [mkDetail None (Some (str long_value)) ADDITION]].

(** Details to run the renderer on. *)
Definition strings_detail : Detail :=
  mkDetail (Some (str "a")) (Some (str "b")) MODIFICATION.

Definition binaries_detail : Detail :=
  mkDetail (Some (bin "aGVsbG8=")) (Some (bin "d29ybGQ=")) MODIFICATION.

Definition half_binary_detail : Detail :=
  mkDetail (Some (bin "aGVsbG8=")) (Some (bin "d29ybGQ")) MODIFICATION.

Definition blob_diff : Diff := mkDiff (at_path "/blob") [half_binary_detail].

Definition half_binary_report : JSONReport :=
  as_json (mkReport (file 1) (file 1) [name_diff; blob_diff]).

Definition order_detail : Detail :=
  mkDetail (Some (seq [str "x"; str "y"; str "z"]))
    (Some (seq [str "z"; str "x"; str "y"])) ORDERCHANGE.

Definition scalar_order_detail : Detail :=
  mkDetail (Some (str "x")) (Some (str "y")) ORDERCHANGE.

Definition null_addition : Detail := mkDetail None None ADDITION.

Definition mixed_sequence : Node := seq [str ""; str "x"; map_ []].

(** An order change of a sequence with an empty string, a string and a
    mapping. *)
Definition mixed_order_detail : Detail :=
  mkDetail (Some mixed_sequence) (Some (seq [map_ []; str ""; str "x"]))
    ORDERCHANGE.

(** The text of the empty string, [dq ++ dq], as a JSON string writes it. *)
Definition escaped_empty_string : string := backslash ++ dq ++ backslash ++ dq.

Definition json_array (l : list string) : string :=
  "[" ++ join "," (map (fun s => dq ++ s ++ dq) l) ++ "]".

(** A sink that takes every write: a buffer in memory. *)
#[export] Instance buffer_writer : io_Writer string := {|
  Write := fun (w p : string) => ((Z.of_nat (String.length p), None), w ++ p)
|}.

(** A sink that takes at most [pipe_chunk] bytes of a write and reports
    no error. *)
Record Pipe : Type := mkPipe {
  pipe_data : string;
  pipe_chunk : nat
}.

Definition pipe_write (w : Pipe) (p : string) : (Z * option error) * Pipe :=
  ((Z.of_nat (Nat.min (pipe_chunk w) (String.length p)), None),
   mkPipe (pipe_data w ++ str_take (pipe_chunk w) p) (pipe_chunk w)).

#[export] Instance pipe_writer : io_Writer Pipe := {| Write := pipe_write |}.

(** The document of [long_report]. *)
Definition long_spec : JSONReportSpec :=
  mkJSONReportSpec (mkJSONDiffSummary 1)
    [mkJSONDiff "/blob"
       [mkJSONDiffDetail (string_of_rune ADDITION) (json_quote long_value) ""]].

Definition long_document : string := marshal_report long_spec.

(** More details to run the renderer on. *)
Definition removal_detail : Detail := mkDetail (Some (int "1")) None REMOVAL.

Definition mixed_detail : Detail :=
  mkDetail (Some (str "a")) (Some (bin "aGVsbG8=")) MODIFICATION.

Definition unknown_detail : Detail := mkDetail None None 63.

Definition odd_diff : Diff :=
  mkDiff (at_path "/odd") [null_addition; unknown_detail].

Definition unknown_report : JSONReport :=
  as_json (mkReport (file 1) (file 1) [name_diff; odd_diff]).

Definition nil_order_detail : Detail := mkDetail None None ORDERCHANGE.

Definition half_order_detail : Detail :=
  mkDetail (Some (seq [str "x"])) None ORDERCHANGE.

End Sample.

(* ================================================================== *)
(** ** Vocabulary of the statements *)

(** [Subsequence l' l]: [l'] is [l] with some elements left out, the others
    in their order. *)
Inductive Subsequence {A : Type} : list A -> list A -> Prop :=
| Subsequence_nil : Subsequence [] []
| Subsequence_keep x l' l : Subsequence l' l -> Subsequence (x :: l') (x :: l)
| Subsequence_drop x l' l : Subsequence l' l -> Subsequence l' (x :: l).

Section Vocabulary.
Context {PL : PathLayer} {EN : Encoders} {DC : DyffCore}.

(** The diffs of a list that have a nil path. *)
Definition nil_paths (ds : list Diff) : list Diff :=
  List.filter (fun d => is_nil (Diff_Path d)) ds.

(** What [Exclude] holds against one input path: it is no Go Patch path, or
    it does not parse. *)
Definition refused (pathString : string) : Prop :=
  isGoPath pathString = false
  \/ snd (ParsePathStringUnsafe pathString) <> None.

(** The error [Exclude] returns for one input path, if any. *)
Definition path_error (pathString : string) : option error :=
  if isGoPath pathString then snd (ParsePathStringUnsafe pathString)
  else Some (errors_New
               ("exclude path should be a Go Patch, but got " ++ pathString)).

(** The text of a sequence element in an order change: its raw scalar
    value, or, when that value is empty, the compact serialization of the
    element as the serializer [ToCompactJSON] gives it. *)
Definition element_text (e : Node) : string * option error :=
  if String.eqb (Node_Value e) "" then ToCompactJSON e
  else (Node_Value e, None).

Definition has_text (entry : option Node) (s : string) : Prop :=
  exists e, entry = Some e /\ element_text e = (s, None).

(** A detail, a diff that is rendered without an error. *)
Definition renders (d : Detail) : Prop :=
  exists out, generateJSONDetailOutput d = Returns (out, None).

Definition diff_renders (report : JSONReport) (d : Diff) : Prop :=
  exists jd,
    generateJSONDiffOutput d (UseGoPatchPaths report)
      (1 <? List.length (Documents (Report_From (JSONReport_Report report))))%nat
    = Returns (Some jd, None).

(** [detail] stands in [report] where everything before it is rendered
    without an error: the diffs before its diff, and the details before it
    in its diff. *)
Definition first_to_fail (report : JSONReport) (detail : Detail) : Prop :=
  exists diffs_before diff diffs_after before after,
    Report_Diffs (JSONReport_Report report)
    = (diffs_before ++ diff :: diffs_after)%list
    /\ Diff_Details diff = (before ++ detail :: after)%list
    /\ Forall (diff_renders report) diffs_before
    /\ Forall renders before.

End Vocabulary.

Section MoreVocabulary.
Context {PL : PathLayer}.

(** [r'] is [r] narrowed: the same two documents, and diffs of [r] in
    their order. *)
Definition narrows (r' r : Report) : Prop :=
  Report_From r' = Report_From r
  /\ Report_To r' = Report_To r
  /\ Subsequence (Report_Diffs r') (Report_Diffs r).

End MoreVocabulary.

Section RenderedVocabulary.
Context {PL : PathLayer} {EN : Encoders} {DC : DyffCore}.

(** [o] is the rendering of the detail [d], obtained without an error. *)
Definition rendered_as (d : Detail) (o : JSONDiffDetail) : Prop :=
  generateJSONDetailOutput d = Returns (o, None).

(** [jd] is the entry of [diff] in the document of [report]: the rendering
    of its path and, in their order, the renderings of its details. *)
Definition diff_rendered_as (report : JSONReport) (diff : Diff) (jd : JSONDiff)
    : Prop :=
  pathToString (Diff_Path diff) (UseGoPatchPaths report)
    (1 <? List.length (Documents (Report_From (JSONReport_Report report))))%nat
  = Returns (JSONDiff_Path jd)
  /\ Forall2 rendered_as (Diff_Details diff) (JSONDiff_Details jd).

End RenderedVocabulary.

Section SinkVocabulary.
Context {W : Type} {IOW : io_Writer W}.

(** A sink that takes every write whole and without an error;
    [contents] reads what it has taken so far. *)
Definition accepts_all (contents : W -> string) : Prop :=
  forall (w : W) (p : string),
    fst (Write w p) = (Z.of_nat (String.length p), None)
    /\ contents (snd (Write w p)) = contents w ++ p.

End SinkVocabulary.

Unset Implicit Arguments.

(* ================================================================== *)
(** ** The report filter *)

Section FilterFacts.
Context {PL : PathLayer} {RL : RegexpLayer}.

Lemma filter_loop (hasPath : option Path -> bool) (ds result : list Diff) :
  fold_left
    (fun (result : list Diff) (diff : Diff) =>
       if hasPath (Diff_Path diff) then (result ++ [diff])%list else result)
    ds result
  = (result ++ List.filter (fun d => hasPath (Diff_Path d)) ds)%list.
Proof.
  revert result.
  induction ds as [|d ds IH]; intros result; simpl.
  - now rewrite app_nil_r.
  - rewrite IH. destruct (hasPath (Diff_Path d)); [|reflexivity].
    now rewrite <- app_assoc.
Qed.

Lemma filter_Diffs (r : Report) (hasPath : option Path -> bool) :
  Report_Diffs (filter r hasPath)
  = List.filter (fun d => hasPath (Diff_Path d)) (Report_Diffs r).
Proof. unfold filter; simpl. now rewrite filter_loop. Qed.

Lemma Subsequence_filter {A} (p : A -> bool) (l : list A) :
  Subsequence (List.filter p l) l.
Proof.
  induction l as [|x l IH]; simpl.
  - constructor.
  - destruct (p x); now constructor.
Qed.

(** C1. [filter] keeps the two document references and gives, as [Diffs],
    the diffs of the report whose path satisfies the predicate: a
    subsequence of the original diffs, each kept diff as it was, and a diff
    is kept exactly when it was there and its path satisfies the
    predicate. *)
Theorem filter_keeps_matching_diffs_in_order
    (r : Report) (hasPath : option Path -> bool) :
  Report_From (filter r hasPath) = Report_From r
  /\ Report_To (filter r hasPath) = Report_To r
  /\ Report_Diffs (filter r hasPath)
     = List.filter (fun d => hasPath (Diff_Path d)) (Report_Diffs r)
  /\ Subsequence (Report_Diffs (filter r hasPath)) (Report_Diffs r)
  /\ (forall d, In d (Report_Diffs (filter r hasPath))
                <-> In d (Report_Diffs r) /\ hasPath (Diff_Path d) = true).
Proof.
  repeat split; try reflexivity.
  - apply filter_Diffs.
  - rewrite filter_Diffs. apply Subsequence_filter.
  - rewrite filter_Diffs in H. now apply filter_In in H.
  - rewrite filter_Diffs in H. now apply filter_In in H.
  - intros [Hin Hp]. rewrite filter_Diffs. apply filter_In. now split.
Qed.

(** *** Nil paths *)

Lemma Filter_hasPath_nil (paths : list string) :
  Filter_hasPath paths None = false.
Proof.
  induction paths as [|p paths IH]; simpl; [reflexivity|].
  destruct (ParsePathStringUnsafe p) as [path err].
  now rewrite andb_false_r.
Qed.

Lemma Exclude_hasPath_nil (err : option error) (ps : list string) :
  Exclude_hasPath err ps None = true.
Proof.
  induction ps as [|p ps IH]; simpl; [reflexivity|].
  now rewrite andb_false_r.
Qed.

Lemma FilterRegexp_hasPath_nil (regexps : list Regexp) :
  FilterRegexp_hasPath regexps None = false.
Proof. induction regexps; simpl; auto. Qed.

Lemma ExcludeRegexp_hasPath_nil (regexps : list Regexp) :
  ExcludeRegexp_hasPath regexps None = true.
Proof. induction regexps; simpl; auto. Qed.

(** A predicate that refuses the nil path leaves no diff with a nil path. *)
Lemma nil_paths_dropped (r : Report) (hasPath : option Path -> bool) :
  hasPath None = false -> nil_paths (Report_Diffs (filter r hasPath)) = [].
Proof.
  intros Hnil. rewrite filter_Diffs. unfold nil_paths.
  induction (Report_Diffs r) as [|d ds IH]; simpl; [reflexivity|].
  destruct (Diff_Path d) as [p|] eqn:Hp.
  - destruct (hasPath (Some p)); simpl; [rewrite Hp; simpl|]; exact IH.
  - now rewrite Hnil.
Qed.

(** A predicate that accepts the nil path keeps every diff with a nil path. *)
Lemma nil_paths_kept (r : Report) (hasPath : option Path -> bool) :
  hasPath None = true ->
  nil_paths (Report_Diffs (filter r hasPath)) = nil_paths (Report_Diffs r).
Proof.
  intros Hnil. rewrite filter_Diffs. unfold nil_paths.
  induction (Report_Diffs r) as [|d ds IH]; simpl; [reflexivity|].
  destruct (Diff_Path d) as [p|] eqn:Hp.
  - destruct (hasPath (Some p)); simpl; [rewrite Hp; simpl|]; exact IH.
  - rewrite Hnil. simpl. rewrite Hp. simpl. now rewrite IH.
Qed.

Lemma nil_paths_nil_iff (ds : list Diff) :
  nil_paths ds = [] <-> forall d, In d ds -> Diff_Path d <> None.
Proof.
  unfold nil_paths. split.
  - intros Hnil d Hin Hp.
    assert (Hf : In d (List.filter (fun d => is_nil (Diff_Path d)) ds))
      by (apply filter_In; split; [exact Hin | now rewrite Hp]).
    now rewrite Hnil in Hf.
  - intros Hall. induction ds as [|d ds IH]; simpl; [reflexivity|].
    destruct (Diff_Path d) eqn:Hp; simpl.
    + apply IH. intros d' Hin. apply Hall. now right.
    + exfalso. apply (Hall d); [now left | exact Hp].
Qed.

End FilterFacts.

Section FilterClaims.
Context {PL : PathLayer} {RL : RegexpLayer}.

(** C2, as amended.  For argument lists that are not empty (and patterns
    that compile), no diff with a nil path is left by [Filter] and by
    [FilterRegexp]; for every argument list (and patterns that compile),
    every diff with a nil path is kept by [Exclude] and by [ExcludeRegexp]:
    the diffs with a nil path of the result are those of the report. *)
Theorem nil_path_dropped_by_inclusion_kept_by_exclusion
    (r : Report) (paths xpaths pattern xpattern : list string)
    (regexps xregexps : list Regexp) :
  paths <> [] ->
  pattern <> [] ->
  compile_patterns pattern = Returns regexps ->
  compile_patterns xpattern = Returns xregexps ->
  Filter_hasPath paths None = false
  /\ (forall d, In d (Report_Diffs (Filter r paths)) -> Diff_Path d <> None)
  /\ FilterRegexp_hasPath regexps None = false
  /\ (exists r', FilterRegexp r pattern = Returns r'
                 /\ forall d, In d (Report_Diffs r') -> Diff_Path d <> None)
  /\ (forall ps, Exclude_hasPath None ps None = true)
  /\ nil_paths (Report_Diffs (fst (Exclude r xpaths)))
     = nil_paths (Report_Diffs r)
  /\ (forall d, In d (Report_Diffs r) -> Diff_Path d = None ->
                In d (Report_Diffs (fst (Exclude r xpaths))))
  /\ ExcludeRegexp_hasPath xregexps None = true
  /\ (exists r', ExcludeRegexp r xpattern = Returns r'
                 /\ nil_paths (Report_Diffs r') = nil_paths (Report_Diffs r)
                 /\ forall d, In d (Report_Diffs r) -> Diff_Path d = None ->
                              In d (Report_Diffs r')).
Proof.
  intros Hpaths Hpattern Hc Hxc.
  assert (Hkept : forall r' : Report,
             nil_paths (Report_Diffs r') = nil_paths (Report_Diffs r) ->
             forall d, In d (Report_Diffs r) -> Diff_Path d = None ->
                       In d (Report_Diffs r')).
  { intros r' Heq d Hin Hp.
    assert (Hd : In d (nil_paths (Report_Diffs r)))
      by (apply filter_In; split; [exact Hin | now rewrite Hp]).
    rewrite <- Heq in Hd. now apply filter_In in Hd. }
  assert (Hx : nil_paths (Report_Diffs (fst (Exclude r xpaths)))
               = nil_paths (Report_Diffs r)).
  { unfold Exclude. destruct xpaths as [|p xpaths']; [reflexivity|].
    destruct (Exclude_paths (p :: xpaths')) as [ps|e]; [|reflexivity].
    apply nil_paths_kept, Exclude_hasPath_nil. }
  assert (Hxr : ExcludeRegexp r xpattern
                = Returns (match xpattern with
                           | [] => r
                           | _ => filter r (ExcludeRegexp_hasPath xregexps)
                           end)).
  { unfold ExcludeRegexp. destruct xpattern; [reflexivity|]. now rewrite Hxc. }
  split; [apply Filter_hasPath_nil|].
  split.
  { apply nil_paths_nil_iff. unfold Filter.
    destruct paths as [|p paths']; [congruence|].
    apply nil_paths_dropped, Filter_hasPath_nil. }
  split; [apply FilterRegexp_hasPath_nil|].
  split.
  { exists (filter r (FilterRegexp_hasPath regexps)). split.
    - unfold FilterRegexp. destruct pattern; [congruence|]. now rewrite Hc.
    - apply nil_paths_nil_iff, nil_paths_dropped, FilterRegexp_hasPath_nil. }
  split; [intros ps; apply Exclude_hasPath_nil|].
  split; [exact Hx|].
  split; [now apply Hkept|].
  split; [apply ExcludeRegexp_hasPath_nil|].
  eexists. split; [exact Hxr|].
  assert (Heq : nil_paths
                  (Report_Diffs
                     (match xpattern with
                      | [] => r
                      | _ => filter r (ExcludeRegexp_hasPath xregexps)
                      end))
                = nil_paths (Report_Diffs r)).
  { destruct xpattern; [reflexivity|].
    apply nil_paths_kept, ExcludeRegexp_hasPath_nil. }
  split; [exact Heq | now apply Hkept].
Qed.

Lemma refused_path_error (pathString : string) :
  refused pathString <-> path_error pathString <> None.
Proof.
  unfold refused, path_error. destruct (isGoPath pathString); split.
  - intros [H|H]; [discriminate | exact H].
  - intros H. now right.
  - intros _. discriminate.
  - intros _. now left.
Qed.

Lemma Exclude_paths_first_error (good : list string) (p : string)
    (rest : list string) (e : error) :
  (forall q, In q good -> path_error q = None) ->
  path_error p = Some e ->
  Exclude_paths (good ++ p :: rest) = inr e.
Proof.
  intros Hgood Hp. induction good as [|q good IH]; simpl.
  - unfold path_error in Hp. destruct (isGoPath p); simpl in *.
    + destruct (ParsePathStringUnsafe p) as [path err]. simpl in Hp.
      now subst err.
    + congruence.
  - assert (Hq : path_error q = None) by (apply Hgood; now left).
    unfold path_error in Hq. destruct (isGoPath q); simpl; [|discriminate].
    destruct (ParsePathStringUnsafe q) as [path err]. simpl in Hq. subst err.
    rewrite IH; [reflexivity|]. intros q' Hin. apply Hgood. now right.
Qed.

(** The first refused path of a list that has one. *)
Lemma first_refused (paths : list string) :
  (exists p, In p paths /\ path_error p <> None) ->
  exists good p rest e,
    paths = (good ++ p :: rest)%list
    /\ (forall q, In q good -> path_error q = None)
    /\ path_error p = Some e.
Proof.
  induction paths as [|q paths IH]; intros [p [Hin Hp]]; [destruct Hin|].
  destruct (path_error q) as [e|] eqn:Hq.
  - exists [], q, paths, e. repeat split; [|exact Hq]. intros ? [].
  - destruct IH as (good & p' & rest & e & Heq & Hgood & Hp').
    + destruct Hin as [->|Hin]; [congruence|]. now exists p.
    + exists (q :: good), p', rest, e. subst paths. repeat split; [|exact Hp'].
      intros q' [<-|Hin']; [exact Hq | now apply Hgood].
Qed.

(** C3. When some input path is no Go Patch path or does not parse,
    [Exclude] returns the report it was given, with an error: the error of
    the first such path in the list; the paths after it are not looked at
    and no filtering is done. *)
Theorem Exclude_fails_on_refused_path (r : Report) (paths : list string) :
  (exists p, In p paths /\ refused p) ->
  exists good p rest e,
    paths = (good ++ p :: rest)%list
    /\ (forall q, In q good -> ~ refused q)
    /\ refused p
    /\ path_error p = Some e
    /\ Exclude r paths = (r, Some e).
Proof.
  intros [p0 [Hin Href]].
  destruct (first_refused paths) as (good & p & rest & e & Heq & Hgood & Hp).
  { exists p0. split; [exact Hin | now apply refused_path_error]. }
  exists good, p, rest, e. repeat split; try assumption.
  - intros q Hq Hr. apply refused_path_error in Hr. now apply Hr, Hgood.
  - apply refused_path_error. congruence.
  - unfold Exclude. subst paths.
    rewrite (Exclude_paths_first_error good p rest e Hgood Hp).
    now destruct good.
Qed.

(** C4. With an empty argument list each of the four operations returns
    the report it was given, and [Exclude] a nil error with it. *)
Theorem empty_arguments_return_the_report (r : Report) :
  Filter r [] = r
  /\ Exclude r [] = (r, None)
  /\ FilterRegexp r [] = Returns r
  /\ ExcludeRegexp r [] = Returns r
  /\ Report_Diffs (Filter r []) = Report_Diffs r
  /\ Report_Diffs (fst (Exclude r [])) = Report_Diffs r.
Proof. repeat split. Qed.

End FilterClaims.

(* ================================================================== *)
(** ** The report renderer *)

Section RendererFacts.
Context {PL : PathLayer} {EN : Encoders} {DC : DyffCore}.

Lemma slice_set_at {A} (pre post : list A) (x v : A) :
  slice_set (pre ++ x :: post) (List.length pre) v = Returns (pre ++ v :: post)%list.
Proof.
  induction pre as [|y pre IH]; simpl; [reflexivity|].
  now rewrite IH.
Qed.

Lemma snoc_app {A} (pre : list A) (x : A) (l : list A) :
  (pre ++ x :: l = (pre ++ [x]) ++ l)%list.
Proof. now rewrite <- app_assoc. Qed.

Lemma length_snoc {A} (pre : list A) (x : A) :
  S (List.length pre) = List.length (pre ++ [x])%list.
Proof. rewrite length_app. simpl. lia. Qed.

(** The loop of [asJSONArray] on elements that all have a text: the texts,
    in the order of the elements, after what was there before index [i]. *)
Lemma asJSONArray_loop_texts (content : list (option Node)) (fs : list string) :
  Forall2 has_text content fs ->
  forall pre,
    asJSONArray_loop content (List.length pre)
      (pre ++ make "" (List.length content))
    = Returns (inl (pre ++ fs)%list).
Proof.
  induction 1 as [|entry s content fs [e [-> Het]] _ IH]; intros pre; simpl.
  - reflexivity.
  - rewrite slice_set_at. simpl.
    unfold element_text in Het.
    destruct (String.eqb (Node_Value e) "") eqn:Hv; rewrite ?Hv in Het.
    + simpl in Het. rewrite Het. rewrite slice_set_at. simpl.
      rewrite (length_snoc pre s), (snoc_app pre s (make "" _)),
        (snoc_app pre s fs).
      apply IH.
    + injection Het as <-.
      rewrite (length_snoc pre (Node_Value e)),
        (snoc_app pre _ (make "" _)), (snoc_app pre _ fs).
      apply IH.
Qed.



Lemma asJSONArray_texts (node : Node) (fs : list string) (b : string) :
  Forall2 has_text (Node_Content node) fs ->
  json_Marshal_strings fs = (b, None) ->
  asJSONArray (Some node) = Returns (b, None).
Proof.
  intros Hfs Hb. unfold asJSONArray. simpl.
  pose proof (asJSONArray_loop_texts _ _ Hfs []) as Hloop. simpl in Hloop.
  rewrite Hloop. simpl. now rewrite Hb.
Qed.

Lemma kind_eqb_false (k k' : Z) : k <> k' -> Z.eqb k k' = false.
Proof. apply Z.eqb_neq. Qed.

End RendererFacts.

(* ================================================================== *)
(** ** Errors of the renderer reach the caller *)

Section RenderErrors.
Context {PL : PathLayer} {EN : Encoders} {DC : DyffCore}.

Lemma generateJSONDiffOutput_loop_error
    (before : list Detail) (detail : Detail) (after : list Detail)
    (x : JSONDiffDetail) (e : error) :
  Forall renders before ->
  generateJSONDetailOutput detail = Returns (x, Some e) ->
  forall pre,
    generateJSONDiffOutput_loop (before ++ detail :: after) (List.length pre)
      (pre ++ make JSONDiffDetail_zero
                (List.length (before ++ detail :: after)))
    = Returns (inr e).
Proof.
  intros Hbefore Hdetail.
  induction Hbefore as [|d before [out Hd] _ IH]; intros pre; simpl.
  - now rewrite Hdetail.
  - rewrite Hd. simpl. rewrite slice_set_at. simpl.
    rewrite (length_snoc pre out), (snoc_app pre out (make _ _)). apply IH.
Qed.

Lemma GenReport_loop_error (report : JSONReport) (showPathRoot : bool)
    (before : list Diff) (diff : Diff) (after : list Diff) (e : error) :
  Forall (fun d => exists jd,
            generateJSONDiffOutput d (UseGoPatchPaths report) showPathRoot
            = Returns (Some jd, None)) before ->
  generateJSONDiffOutput diff (UseGoPatchPaths report) showPathRoot
  = Returns (None, Some e) ->
  forall pre,
    GenReport_loop report showPathRoot (before ++ diff :: after)
      (List.length pre)
      (pre ++ make JSONDiff_zero (List.length (before ++ diff :: after)))
    = Returns (inr e).
Proof.
  intros Hbefore Hdiff.
  induction Hbefore as [|d before [jd Hd] _ IH]; intros pre; simpl.
  - now rewrite Hdiff.
  - rewrite Hd. simpl. rewrite slice_set_at. simpl.
    rewrite (length_snoc pre jd), (snoc_app pre jd (make _ _)). apply IH.
Qed.

(** The first detail that fails, in the first diff that fails, decides the
    outcome of [GenReport]: the zero document and the error of that
    detail. *)
Lemma GenReport_first_error (report : JSONReport) (detail : Detail)
    (x : JSONDiffDetail) (e : error) :
  first_to_fail report detail ->
  generateJSONDetailOutput detail = Returns (x, Some e) ->
  GenReport report = Returns (JSONReportSpec_zero, Some e).
Proof.
  intros (diffs_before & diff & diffs_after & before & after
          & Hdiffs & Hdetails & Hdiffs_before & Hbefore) Hdetail.
  assert (Hdiff : generateJSONDiffOutput diff (UseGoPatchPaths report)
                    (1 <? List.length
                            (Documents (Report_From (JSONReport_Report report))))%nat
                  = Returns (None, Some e)).
  { unfold generateJSONDiffOutput. rewrite Hdetails.
    pose proof (generateJSONDiffOutput_loop_error before detail after x e
                  Hbefore Hdetail []) as H.
    simpl in H. now rewrite H. }
  pose proof (GenReport_loop_error report _ diffs_before diff diffs_after e
                Hdiffs_before Hdiff []) as Hloop.
  simpl in Hloop. unfold GenReport. rewrite Hdiffs. simpl.
  now rewrite Hloop.
Qed.

End RenderErrors.

Section RendererClaims.
Context {PL : PathLayer} {EN : Encoders} {DC : DyffCore}.

(** C5. A modification between two nodes of type [string] is rendered by
    their raw values: the addition is the value of [To], the removal the
    value of [From], the kind is the tag of [MODIFICATION]. *)
Theorem modification_of_strings_uses_raw_values (detail : Detail) (f t : Node) :
  MODIFICATION <> ADDITION ->
  MODIFICATION <> REMOVAL ->
  Detail_Kind detail = MODIFICATION ->
  Detail_From detail = Some f ->
  Detail_To detail = Some t ->
  humanReadableType (Some f) = Returns "string" ->
  humanReadableType (Some t) = Returns "string" ->
  generateJSONDetailOutputModification detail
  = Returns (mkJSONDiffDetail (string_of_rune MODIFICATION)
               (Node_Value t) (Node_Value f), None)
  /\ generateJSONDetailOutput detail
     = Returns (mkJSONDiffDetail (string_of_rune MODIFICATION)
                  (Node_Value t) (Node_Value f), None).
Proof.
  intros Ha Hr Hk Hf Ht Htf Htt.
  assert (Hm : generateJSONDetailOutputModification detail
               = Returns (mkJSONDiffDetail (string_of_rune MODIFICATION)
                            (Node_Value t) (Node_Value f), None)).
  { unfold generateJSONDetailOutputModification.
    rewrite Hf, Ht, Htf, Htt, Hk. reflexivity. }
  split; [exact Hm|].
  unfold generateJSONDetailOutput.
  rewrite Hk, (kind_eqb_false _ _ Ha), (kind_eqb_false _ _ Hr), Z.eqb_refl.
  exact Hm.
Qed.

(** C6. A modification between two nodes of type [binary]: both values are
    decoded from base64, [From] first; when one of them does not decode,
    the error is returned with a detail that has the kind only, also when
    the other one decodes; when both decode, the removal is the hex dump of
    what [From] decodes to and the addition that of [To].  When the detail
    fails and is the first of a report to fail, [GenReport] returns that
    error and the zero document. *)
Theorem modification_of_binaries_dumps_or_fails (detail : Detail) (f t : Node) :
  MODIFICATION <> ADDITION ->
  MODIFICATION <> REMOVAL ->
  Detail_Kind detail = MODIFICATION ->
  Detail_From detail = Some f ->
  Detail_To detail = Some t ->
  humanReadableType (Some f) = Returns "binary" ->
  humanReadableType (Some t) = Returns "binary" ->
  generateJSONDetailOutput detail
  = Returns
      match base64_DecodeString (Node_Value f),
            base64_DecodeString (Node_Value t) with
      | (_, Some e), _ =>
          (mkJSONDiffDetail (string_of_rune MODIFICATION) "" "", Some e)
      | (_, None), (_, Some e) =>
          (mkJSONDiffDetail (string_of_rune MODIFICATION) "" "", Some e)
      | (from, None), (to, None) =>
          (mkJSONDiffDetail (string_of_rune MODIFICATION)
             (hex_Dump to) (hex_Dump from), None)
      end
  /\ (forall (report : JSONReport) (x : JSONDiffDetail) (e : error),
        generateJSONDetailOutput detail = Returns (x, Some e) ->
        first_to_fail report detail ->
        GenReport report = Returns (JSONReportSpec_zero, Some e)).
Proof.
  intros Ha Hr Hk Hf Ht Htf Htt.
  split; [|intros report x e He Hfirst;
           exact (GenReport_first_error report detail x e Hfirst He)].
  unfold generateJSONDetailOutput.
  rewrite Hk, (kind_eqb_false _ _ Ha), (kind_eqb_false _ _ Hr), Z.eqb_refl.
  unfold generateJSONDetailOutputModification.
  rewrite Hf, Ht, Htf, Htt, Hk. simpl.
  destruct (base64_DecodeString (Node_Value f)) as [from [e|]]; [reflexivity|].
  destruct (base64_DecodeString (Node_Value t)) as [to [e|]]; reflexivity.
Qed.

(** C7. An order change whose [From] is a sequence is rendered by the JSON
    arrays of the texts of the elements, the removal from [From] and the
    addition from [To]; an order change whose [From] is of another kind is
    rendered by its kind alone, without an error. *)
Theorem order_change_renders_arrays_of_texts (detail : Detail) (f : Node) :
  ORDERCHANGE <> ADDITION ->
  ORDERCHANGE <> REMOVAL ->
  ORDERCHANGE <> MODIFICATION ->
  Detail_Kind detail = ORDERCHANGE ->
  Detail_From detail = Some f ->
  (Node_Kind f = SequenceNode ->
   forall (t : Node) (fs ts : list string) (from to : string),
     Detail_To detail = Some t ->
     Forall2 has_text (Node_Content f) fs ->
     Forall2 has_text (Node_Content t) ts ->
     json_Marshal_strings fs = (from, None) ->
     json_Marshal_strings ts = (to, None) ->
     generateJSONDetailOutput detail
     = Returns (mkJSONDiffDetail (string_of_rune ORDERCHANGE) to from, None))
  /\ (Node_Kind f <> SequenceNode ->
      generateJSONDetailOutput detail
      = Returns (mkJSONDiffDetail (string_of_rune ORDERCHANGE) "" "", None)).
Proof.
  intros Ha Hr Hm Hk Hf.
  assert (Hgo : generateJSONDetailOutput detail
                = generateJSONDetailOutputOrderchange detail).
  { unfold generateJSONDetailOutput.
    now rewrite Hk, (kind_eqb_false _ _ Ha), (kind_eqb_false _ _ Hr),
      (kind_eqb_false _ _ Hm), Z.eqb_refl. }
  rewrite Hgo. unfold generateJSONDetailOutputOrderchange.
  rewrite Hf, Hk. simpl. split.
  - intros Hseq t fs ts from to Ht Hfs Hts Hfrom Hto.
    rewrite Hseq. simpl. rewrite Ht.
    rewrite (asJSONArray_texts f fs from Hfs Hfrom). simpl.
    rewrite (asJSONArray_texts t ts to Hts Hto). reflexivity.
  - intros Hseq. apply N.eqb_neq in Hseq. now rewrite Hseq.
Qed.

(** C8. An addition is rendered with the addition field alone: the compact
    serialization of [To], and the four characters [null] when [To] is
    nil; the removal field is empty whatever the outcome. *)
Theorem addition_renders_To_alone (detail : Detail) :
  Detail_Kind detail = ADDITION ->
  (Detail_To detail = None ->
   generateJSONDetailOutput detail
   = Returns (mkJSONDiffDetail (string_of_rune ADDITION) "null" "", None))
  /\ (forall n s,
        Detail_To detail = Some n -> ToCompactJSON n = (s, None) ->
        generateJSONDetailOutput detail
        = Returns (mkJSONDiffDetail (string_of_rune ADDITION) s "", None))
  /\ (exists d err, generateJSONDetailOutput detail = Returns (d, err)
                    /\ JSONDiffDetail_Removal d = "").
Proof.
  intros Hk. unfold generateJSONDetailOutput. rewrite Hk, Z.eqb_refl.
  split; [|split].
  - intros ->. reflexivity.
  - intros n s -> Hs. simpl. now rewrite Hs.
  - destruct (jsonString (Detail_To detail)) as [s [e|]];
      eexists; eexists; split; reflexivity.
Qed.


End RendererClaims.

(* ================================================================== *)
(** ** Writing the report *)

Section WriterFacts.
Context {W : Type} {IOW : io_Writer W}.

Lemma str_length_append (s1 s2 : string) :
  String.length (s1 ++ s2) = String.length s1 + String.length s2.
Proof. induction s1 as [|a s1 IH]; simpl; [reflexivity | now rewrite IH]. Qed.

Lemma str_take_length (n : nat) (s : string) :
  String.length (str_take n s) = Nat.min n (String.length s).
Proof.
  revert s. induction n as [|n IH]; intros [|a s]; simpl; try reflexivity.
  now rewrite IH.
Qed.

Lemma str_drop_length (n : nat) (s : string) :
  String.length (str_drop n s) = String.length s - n.
Proof.
  revert s. induction n as [|n IH]; intros [|a s]; simpl; try reflexivity.
  apply IH.
Qed.

Lemma str_take_all (n : nat) (s : string) :
  String.length s <= n -> str_take n s = s.
Proof.
  revert s. induction n as [|n IH]; intros [|a s]; simpl; try reflexivity.
  - lia.
  - intros H. rewrite IH; [reflexivity | lia].
Qed.

Lemma str_length_0 (s : string) : String.length s = 0 -> s = "".
Proof. now destruct s. Qed.

Lemma defaultBufSize_pos : 0 < defaultBufSize.
Proof. unfold defaultBufSize. apply Nat.lt_0_succ. Qed.

(** After [Flush] on a writer without a stored error, the writer has
    stored an error or its buffer is empty. *)
Lemma Flush_outcome (b : bufio_Writer W) :
  bufio_err b = None ->
  bufio_err (fst (Flush b)) <> None
  \/ (bufio_err (fst (Flush b)) = None /\ bufio_buf (fst (Flush b)) = "").
Proof.
  intros Herr. unfold Flush. rewrite Herr.
  destruct (String.length (bufio_buf b) =? 0)%nat eqn:Hlen.
  - right. split; [exact Herr|]. apply Nat.eqb_eq in Hlen.
    now apply str_length_0.
  - destruct (Write (bufio_wr b) (bufio_buf b)) as [[n err] wr].
    destruct ((n <? Z.of_nat (String.length (bufio_buf b)))%Z && is_nil err).
    + left. discriminate.
    + destruct err; [left; discriminate | right; now split].
Qed.

Lemma WriteString_loop_stop (fuel : nat) (b : bufio_Writer W) (s : string) (nn : Z) :
  (Available b <? String.length s)%nat && is_nil (bufio_err b) = false ->
  WriteString_loop fuel b s nn = (b, s, nn).
Proof. intros H. destruct fuel; simpl; [reflexivity | now rewrite H]. Qed.

(** The fuel of [WriteString] is enough: the loop ends because its
    condition has become false. *)
Lemma WriteString_loop_exits (fuel : nat) :
  forall (b : bufio_Writer W) (s : string) (nn : Z),
    2 * String.length s + (if (Available b =? 0)%nat then 1 else 0) < fuel ->
    exists b' s' nn',
      WriteString_loop fuel b s nn = (b', s', nn')
      /\ (Available b' <? String.length s')%nat && is_nil (bufio_err b') = false.
Proof.
  pose proof defaultBufSize_pos as Hpos.
  induction fuel as [|fuel IH]; intros b s nn Hfuel; [lia|].
  simpl.
  destruct ((Available b <? String.length s)%nat && is_nil (bufio_err b))
    eqn:Hcond; [|now exists b, s, nn].
  apply andb_prop in Hcond. destruct Hcond as [Hlt Herr].
  apply Nat.ltb_lt in Hlt.
  assert (Herr' : bufio_err b = None) by (now destruct (bufio_err b)).
  rewrite Nat.min_l by lia.
  set (b1 := mk_bufio_Writer (bufio_err b)
               (bufio_buf b ++ str_take (Available b) s) (bufio_wr b)).
  assert (Hb1 : bufio_err b1 = None) by exact Herr'.
  destruct (Flush_outcome b1 Hb1) as [Hbad|[Hok Hbuf]];
    destruct (Flush b1) as [b2 r]; cbn [fst] in *.
  - exists b2, (str_drop (Available b) s), (nn + Z.of_nat (Available b))%Z.
    assert (Hstop : (Available b2 <? String.length (str_drop (Available b) s))%nat
                    && is_nil (bufio_err b2) = false).
    { destruct (bufio_err b2); [now rewrite andb_false_r | congruence]. }
    split; [now apply WriteString_loop_stop | exact Hstop].
  - apply IH. rewrite str_drop_length.
    assert (Hav2 : Available b2 = defaultBufSize)
      by (unfold Available; rewrite Hbuf; apply Nat.sub_0_r).
    rewrite Hav2.
    destruct (Nat.eqb_spec defaultBufSize 0) as [H0|_]; [lia|].
    destruct (Nat.eqb_spec (Available b) 0) as [Ha|Ha]; lia.
Qed.

Context {PL : PathLayer} {EN : Encoders} {DC : DyffCore}.

(** When the renderer fails, [WriteReport] returns its error and the sink
    is not written to. *)
Lemma WriteReport_render_error (report : JSONReport) (out : W)
    (x : JSONReportSpec) (e : error) :
  GenReport report = Returns (x, Some e) ->
  WriteReport report out = (Returns (Some e), out).
Proof. intros H. unfold WriteReport. now rewrite H. Qed.

(** A document that fits the buffer reaches the sink in the deferred
    [Flush] only, and [WriteReport] returns a nil error whatever the sink
    answers to that write. *)
Lemma WriteReport_small_document (report : JSONReport) (out : W)
    (spec : JSONReportSpec) (doc : string) :
  GenReport report = Returns (spec, None) ->
  json_Marshal_report spec = (doc, None) ->
  doc <> "" ->
  String.length doc <= defaultBufSize ->
  WriteReport report out = (Returns None, snd (Write out doc)).
Proof.
  intros Hgen Hdoc Hne Hlen.
  unfold WriteReport. rewrite Hgen, Hdoc.
  unfold WriteString.
  assert (Hav : Available (bufio_NewWriter out) = defaultBufSize)
    by (unfold Available; apply Nat.sub_0_r).
  rewrite WriteString_loop_stop
    by (rewrite Hav; rewrite (proj2 (Nat.ltb_ge _ _) Hlen); reflexivity).
  cbn [bufio_err bufio_NewWriter bufio_buf bufio_wr].
  rewrite Hav, Nat.min_r by exact Hlen.
  rewrite str_take_all by lia.
  unfold Flush. cbn [bufio_err bufio_buf bufio_wr]. simpl append.
  destruct (Nat.eqb_spec (String.length doc) 0) as [H0|_].
  - exfalso. apply Hne. now apply str_length_0.
  - destruct (Write out doc) as [[n err] wr]. simpl.
    destruct ((n <? Z.of_nat (String.length doc))%Z && is_nil err);
      [reflexivity|].
    now destruct err.
Qed.

End WriterFacts.

(* ================================================================== *)
(** ** What the filters keep *)

Section FilterLaws.
Context {PL : PathLayer} {RL : RegexpLayer}.

Lemma filter_eq (r : Report) (hasPath : option Path -> bool) :
  filter r hasPath
  = mkReport (Report_From r) (Report_To r)
      (List.filter (fun d => hasPath (Diff_Path d)) (Report_Diffs r)).
Proof. unfold filter. now rewrite filter_loop. Qed.

Lemma filter_In_Diffs (r : Report) (hasPath : option Path -> bool) (d : Diff) :
  In d (Report_Diffs (filter r hasPath))
  <-> In d (Report_Diffs r) /\ hasPath (Diff_Path d) = true.
Proof. rewrite filter_Diffs. apply filter_In. Qed.

Lemma Filter_hasPath_Some (paths : list string) (fp : Path) :
  Filter_hasPath paths (Some fp) = true
  <-> exists p path,
        In p paths
        /\ ParsePathStringUnsafe p = (path, None)
        /\ Path_String path = Path_String fp.
Proof.
  induction paths as [|q paths IH]; simpl.
  - split; [discriminate | intros (p & path & [] & _)].
  - destruct (ParsePathStringUnsafe q) as [path err] eqn:Hq.
    destruct err as [e|]; simpl.
    + rewrite IH. split.
      * intros (p & path' & Hin & Hp). exists p, path'. now split; [right|].
      * intros (p & path' & [<-|Hin] & Hp & Hs); [congruence|].
        now exists p, path'.
    + destruct (String.eqb_spec (Path_String path) (Path_String fp)) as [Heq|Hne].
      * split; [|reflexivity]. intros _. exists q, path. now split; [left|].
      * rewrite IH. split.
        -- intros (p & path' & Hin & Hp). exists p, path'. now split; [right|].
        -- intros (p & path' & [<-|Hin] & Hp & Hs); [congruence|].
           now exists p, path'.
Qed.

(** X1.  With at least one input path, [Filter] keeps a diff exactly when
    its path is not nil and has the canonical string of an input path that
    parses. *)
Theorem Filter_keeps_exact_matches (r : Report) (paths : list string) (d : Diff) :
  paths <> [] ->
  (In d (Report_Diffs (Filter r paths))
   <-> In d (Report_Diffs r)
       /\ exists fp p path,
            Diff_Path d = Some fp
            /\ In p paths
            /\ ParsePathStringUnsafe p = (path, None)
            /\ Path_String path = Path_String fp).
Proof.
  intros Hne. unfold Filter. destruct paths as [|q paths]; [congruence|].
  rewrite filter_In_Diffs. split.
  - intros [Hin Hp]. split; [exact Hin|].
    destruct (Diff_Path d) as [fp|]; [|now rewrite Filter_hasPath_nil in Hp].
    apply Filter_hasPath_Some in Hp. destruct Hp as (p & path & Hp).
    now exists fp, p, path.
  - intros [Hin (fp & p & path & -> & Hp)]. split; [exact Hin|].
    apply Filter_hasPath_Some. now exists p, path.
Qed.

(** X2.  Input paths that do not parse are passed over without an error:
    when none of the input paths parses, [Filter] returns a report without
    diffs. *)
Theorem Filter_of_unparsable_paths_is_empty (r : Report) (paths : list string) :
  paths <> [] ->
  (forall p, In p paths -> snd (ParsePathStringUnsafe p) <> None) ->
  Filter r paths = mkReport (Report_From r) (Report_To r) [].
Proof.
  intros Hne Hbad. unfold Filter. destruct paths as [|q paths]; [congruence|].
  rewrite filter_eq. f_equal.
  induction (Report_Diffs r) as [|d ds IH]; [reflexivity|].
  cbn [List.filter]. rewrite IH.
  destruct (Filter_hasPath (q :: paths) (Diff_Path d)) eqn:Hd; [|reflexivity].
  destruct (Diff_Path d) as [fp|]; [|now rewrite Filter_hasPath_nil in Hd].
  apply Filter_hasPath_Some in Hd. destruct Hd as (p & path & Hin & Hp & _).
  exfalso. apply (Hbad p Hin). now rewrite Hp.
Qed.

Lemma path_error_None (p : string) :
  path_error p = None
  <-> isGoPath p = true /\ snd (ParsePathStringUnsafe p) = None.
Proof.
  unfold path_error. destruct (isGoPath p); split.
  - now intros ->.
  - now intros [_ ->].
  - discriminate.
  - now intros [].
Qed.

Lemma not_refused_path_error (p : string) : ~ refused p <-> path_error p = None.
Proof.
  rewrite refused_path_error. destruct (path_error p); split; try congruence.
  intros H. exfalso. apply H. discriminate.
Qed.

(** The slice [ps] of [Exclude] when every input path is accepted. *)
Lemma Exclude_paths_accepted (paths : list string) :
  (forall p, In p paths -> path_error p = None) ->
  Exclude_paths paths
  = inl (map (fun p => Path_String (fst (ParsePathStringUnsafe p))) paths).
Proof.
  induction paths as [|q paths IH]; intros Hok; [reflexivity|]. simpl.
  destruct (proj1 (path_error_None q) (Hok q (or_introl eq_refl))) as [Hgo Hparse].
  rewrite Hgo. simpl.
  destruct (ParsePathStringUnsafe q) as [path err]. simpl in *. subst err.
  rewrite IH; [reflexivity|]. intros p Hin. apply Hok. now right.
Qed.

Lemma Exclude_paths_inl (paths ps : list string) :
  Exclude_paths paths = inl ps -> forall p, In p paths -> path_error p = None.
Proof.
  revert ps. induction paths as [|q paths IH]; intros ps; simpl; [intros _ ? []|].
  unfold path_error at 1.
  destruct (isGoPath q) eqn:Hgo; simpl; [|discriminate].
  destruct (ParsePathStringUnsafe q) as [path err] eqn:Hq.
  destruct err; [discriminate|].
  destruct (Exclude_paths paths) as [ps'|]; [|discriminate].
  intros _ p [<-|Hin].
  - unfold path_error. now rewrite Hgo, Hq.
  - now apply (IH ps').
Qed.

Lemma Exclude_hasPath_Some (ps : list string) (fp : Path) :
  Exclude_hasPath None ps (Some fp) = true
  <-> forall s, In s ps -> strings_HasPrefix (Path_String fp) s = false.
Proof.
  induction ps as [|q ps IH]; simpl.
  - split; [intros _ ? [] | reflexivity].
  - destruct (strings_HasPrefix (Path_String fp) q) eqn:Hq.
    + split; [discriminate|]. intros H. now rewrite <- Hq, (H q (or_introl eq_refl)).
    + rewrite IH. split.
      * intros H s [<-|Hin]; [exact Hq | now apply H].
      * intros H s Hin. apply H. now right.
Qed.

(** X3.  [Exclude] returns an error exactly when some input path is no Go
    Patch path or does not parse. *)
Theorem Exclude_fails_only_on_refused_path (r : Report) (paths : list string) :
  snd (Exclude r paths) <> None <-> exists p, In p paths /\ refused p.
Proof.
  split.
  - unfold Exclude. destruct paths as [|q paths]; [now intros []|].
    destruct (Exclude_paths (q :: paths)) as [ps|e] eqn:Hps; [now intros []|].
    intros _.
    assert (Hex : ~ forall p, In p (q :: paths) -> path_error p = None).
    { intros Hall. rewrite (Exclude_paths_accepted _ Hall) in Hps. discriminate. }
    clear Hps. induction (q :: paths) as [|a l IH]; [exfalso; apply Hex; intros ? []|].
    destruct (path_error a) eqn:Ha.
    + exists a. split; [now left|]. apply refused_path_error. congruence.
    + destruct IH as (p & Hin & Hp).
      * intros Hall. apply Hex. intros p [<-|Hin]; [exact Ha | now apply Hall].
      * exists p. split; [now right | exact Hp].
  - intros (p0 & Hin & Href).
    destruct (first_refused paths) as (good & p & rest & e & -> & Hgood & Hp).
    { exists p0. split; [exact Hin | now apply refused_path_error]. }
    unfold Exclude.
    rewrite (Exclude_paths_first_error good p rest e Hgood Hp).
    destruct good; discriminate.
Qed.

(** X4.  When every input path is accepted, [Exclude] returns no error and
    keeps a diff exactly when its path is nil or its canonical string
    starts with the canonical string of none of the input paths. *)
Theorem Exclude_keeps_unprefixed (r : Report) (paths : list string) (d : Diff) :
  paths <> [] ->
  (forall p, In p paths -> ~ refused p) ->
  snd (Exclude r paths) = None
  /\ (In d (Report_Diffs (fst (Exclude r paths)))
      <-> In d (Report_Diffs r)
          /\ forall fp p,
               Diff_Path d = Some fp -> In p paths ->
               strings_HasPrefix (Path_String fp)
                 (Path_String (fst (ParsePathStringUnsafe p))) = false).
Proof.
  intros Hne Hok.
  assert (Hps : Exclude_paths paths
                = inl (map (fun p => Path_String (fst (ParsePathStringUnsafe p)))
                         paths)).
  { apply Exclude_paths_accepted. intros p Hin.
    now apply not_refused_path_error, Hok. }
  unfold Exclude. destruct paths as [|q paths]; [congruence|]. rewrite Hps.
  cbn [fst snd]. split; [reflexivity|]. rewrite filter_In_Diffs.
  destruct (Diff_Path d) as [fp|].
  - rewrite Exclude_hasPath_Some. split.
    + intros [Hin Hall]. split; [exact Hin|]. intros fp' p [= <-] Hp.
      apply Hall. apply in_map_iff. now exists p.
    + intros [Hin Hall]. split; [exact Hin|]. intros s Hs.
      apply in_map_iff in Hs. destruct Hs as (p & <- & Hp). now apply Hall.
  - rewrite Exclude_hasPath_nil. split.
    + intros [Hin _]. split; [exact Hin | discriminate].
    + now intros [Hin _].
Qed.

(** *** Patterns *)

Lemma compile_patterns_Returns (pattern : list string) (regexps : list Regexp) :
  compile_patterns pattern = Returns regexps
  <-> Forall2 (fun p re => regexp_Compile p = inl re) pattern regexps.
Proof.
  revert regexps. induction pattern as [|p pattern IH]; intros regexps; simpl.
  - split.
    + intros [= <-]. constructor.
    + intros H. inversion H. reflexivity.
  - unfold regexp_MustCompile. split.
    + destruct (regexp_Compile p) as [re|e] eqn:Hp; simpl; [|discriminate].
      destruct (compile_patterns pattern) as [res|] eqn:Hc; simpl; [|discriminate].
      intros [= <-]. constructor; [exact Hp | now apply IH].
    + intros H. inversion H as [|? re ? res Hp Hrest]; subst.
      rewrite Hp. simpl. apply IH in Hrest. now rewrite Hrest.
Qed.

Lemma compile_patterns_Panics (pattern : list string) :
  compile_patterns pattern = Panics
  <-> exists p, In p pattern /\ exists e, regexp_Compile p = inr e.
Proof.
  induction pattern as [|p pattern IH]; simpl.
  - split; [discriminate | intros (p & [] & _)].
  - unfold regexp_MustCompile.
    destruct (regexp_Compile p) as [re|e] eqn:Hp; simpl.
    + destruct (compile_patterns pattern) as [res|] eqn:Hc; simpl.
      * split; [discriminate|].
        intros (q & [<-|Hin] & e & Hq); [congruence|].
        assert (Hpanic : @Returns (list Regexp) res = Panics)
          by (apply IH; exists q; split; [exact Hin | now exists e]).
        discriminate.
      * split; [|reflexivity]. intros _.
        destruct (proj1 IH eq_refl) as (q & Hin & Hq).
        exists q. split; [now right | exact Hq].
    + split; [|reflexivity]. intros _. exists p. split; [now left | now exists e].
Qed.

Lemma compile_patterns_all (pattern : list string) :
  (forall p, In p pattern -> exists re, regexp_Compile p = inl re) ->
  exists regexps, compile_patterns pattern = Returns regexps.
Proof.
  intros Hall. destruct (compile_patterns pattern) as [regexps|] eqn:Hc.
  - now exists regexps.
  - apply compile_patterns_Panics in Hc. destruct Hc as (p & Hin & e & Hp).
    destruct (Hall p Hin) as [re Hre]. congruence.
Qed.

Lemma Forall2_In_l {A B} (R : A -> B -> Prop) (l : list A) (l' : list B) :
  Forall2 R l l' -> forall x, In x l -> exists y, In y l' /\ R x y.
Proof.
  induction 1 as [|a b l l' Hab _ IH]; intros x; [intros []|].
  intros [<-|Hin].
  - exists b. split; [now left | exact Hab].
  - destruct (IH x Hin) as (y & Hy & Hxy). exists y. split; [now right | exact Hxy].
Qed.

Lemma Forall2_In_r {A B} (R : A -> B -> Prop) (l : list A) (l' : list B) :
  Forall2 R l l' -> forall y, In y l' -> exists x, In x l /\ R x y.
Proof.
  induction 1 as [|a b l l' Hab _ IH]; intros y; [intros []|].
  intros [<-|Hin].
  - exists a. split; [now left | exact Hab].
  - destruct (IH y Hin) as (x & Hx & Hxy). exists x. split; [now right | exact Hxy].
Qed.

Lemma FilterRegexp_hasPath_Some (regexps : list Regexp) (fp : Path) :
  FilterRegexp_hasPath regexps (Some fp) = true
  <-> exists re, In re regexps /\ MatchString re (Path_String fp) = true.
Proof.
  induction regexps as [|re regexps IH]; simpl.
  - split; [discriminate | intros (re & [] & _)].
  - destruct (MatchString re (Path_String fp)) eqn:Hre.
    + split; [|reflexivity]. intros _. exists re. now split; [left|].
    + rewrite IH. split.
      * intros (re' & Hin & Hm). exists re'. now split; [right|].
      * intros (re' & [<-|Hin] & Hm); [congruence|]. now exists re'.
Qed.

(** The two predicates on patterns are each other's negation, on a nil
    path too. *)
Lemma ExcludeRegexp_hasPath_negb (regexps : list Regexp) (p : option Path) :
  ExcludeRegexp_hasPath regexps p = negb (FilterRegexp_hasPath regexps p).
Proof.
  induction regexps as [|re regexps IH]; simpl; [reflexivity|].
  destruct p as [fp|]; [|exact IH].
  destruct (MatchString re (Path_String fp)); [reflexivity | exact IH].
Qed.

(** X5.  With at least one pattern, all of which compile, [FilterRegexp]
    returns, and keeps a diff exactly when its path is not nil and its
    canonical string matches one of the patterns. *)
Theorem FilterRegexp_keeps_matches (r : Report) (pattern : list string) :
  pattern <> [] ->
  (forall p, In p pattern -> exists re, regexp_Compile p = inl re) ->
  exists r',
    FilterRegexp r pattern = Returns r'
    /\ forall d,
         In d (Report_Diffs r')
         <-> In d (Report_Diffs r)
             /\ exists fp p re,
                  Diff_Path d = Some fp
                  /\ In p pattern
                  /\ regexp_Compile p = inl re
                  /\ MatchString re (Path_String fp) = true.
Proof.
  intros Hne Hall. destruct (compile_patterns_all pattern Hall) as [regexps Hc].
  exists (filter r (FilterRegexp_hasPath regexps)). split.
  { unfold FilterRegexp. destruct pattern; [congruence|]. now rewrite Hc. }
  apply compile_patterns_Returns in Hc.
  intros d. rewrite filter_In_Diffs. split.
  - intros [Hin Hp]. split; [exact Hin|].
    destruct (Diff_Path d) as [fp|]; [|now rewrite FilterRegexp_hasPath_nil in Hp].
    apply FilterRegexp_hasPath_Some in Hp. destruct Hp as (re & Hre & Hm).
    destruct (Forall2_In_r _ _ _ Hc re Hre) as (p & Hp & Hpre).
    now exists fp, p, re.
  - intros [Hin (fp & p & re & -> & Hp & Hpre & Hm)]. split; [exact Hin|].
    apply FilterRegexp_hasPath_Some.
    destruct (Forall2_In_l _ _ _ Hc p Hp) as (re' & Hre' & Hpre').
    exists re'. split; [exact Hre' | congruence].
Qed.

(** X6.  With at least one pattern, all of which compile, [ExcludeRegexp]
    returns, and keeps a diff exactly when its path is nil or its canonical
    string matches none of the patterns. *)
Theorem ExcludeRegexp_keeps_unmatched (r : Report) (pattern : list string) :
  pattern <> [] ->
  (forall p, In p pattern -> exists re, regexp_Compile p = inl re) ->
  exists r',
    ExcludeRegexp r pattern = Returns r'
    /\ forall d,
         In d (Report_Diffs r')
         <-> In d (Report_Diffs r)
             /\ forall fp p re,
                  Diff_Path d = Some fp ->
                  In p pattern ->
                  regexp_Compile p = inl re ->
                  MatchString re (Path_String fp) = false.
Proof.
  intros Hne Hall. destruct (compile_patterns_all pattern Hall) as [regexps Hc].
  exists (filter r (ExcludeRegexp_hasPath regexps)). split.
  { unfold ExcludeRegexp. destruct pattern; [congruence|]. now rewrite Hc. }
  apply compile_patterns_Returns in Hc.
  intros d. rewrite filter_In_Diffs, ExcludeRegexp_hasPath_negb, negb_true_iff.
  split.
  - intros [Hin Hp]. split; [exact Hin|]. intros fp p re Hfp Hpin Hpre.
    rewrite Hfp in Hp.
    destruct (MatchString re (Path_String fp)) eqn:Hm; [|reflexivity].
    assert (Ht : FilterRegexp_hasPath regexps (Some fp) = true).
    { apply FilterRegexp_hasPath_Some.
      destruct (Forall2_In_l _ _ _ Hc p Hpin) as (re' & Hre' & Hpre').
      exists re'. split; [exact Hre' | congruence]. }
    congruence.
  - intros [Hin Hnone]. split; [exact Hin|].
    destruct (Diff_Path d) as [fp|]; [|apply FilterRegexp_hasPath_nil].
    destruct (FilterRegexp_hasPath regexps (Some fp)) eqn:Ht; [|reflexivity].
    apply FilterRegexp_hasPath_Some in Ht. destruct Ht as (re & Hre & Hm).
    destruct (Forall2_In_r _ _ _ Hc re Hre) as (p & Hp & Hpre).
    rewrite (Hnone fp p re eq_refl Hp Hpre) in Hm. discriminate.
Qed.

(** X7.  [FilterRegexp] and [ExcludeRegexp] panic exactly when one of the
    patterns does not compile; with no pattern they never do. *)
Theorem regexp_filters_panic_on_bad_pattern (r : Report) (pattern : list string) :
  (FilterRegexp r pattern = Panics
   <-> exists p, In p pattern /\ exists e, regexp_Compile p = inr e)
  /\ (ExcludeRegexp r pattern = Panics
      <-> exists p, In p pattern /\ exists e, regexp_Compile p = inr e).
Proof.
  rewrite <- compile_patterns_Panics.
  unfold FilterRegexp, ExcludeRegexp.
  destruct pattern as [|p pattern]; [split; split; discriminate|].
  destruct (compile_patterns (p :: pattern)); simpl;
    split; split; congruence.
Qed.

Lemma filter_partition {A} (f : A -> bool) (l : list A) :
  Permutation (List.filter f l ++ List.filter (fun x => negb (f x)) l) l.
Proof.
  induction l as [|x l IH]; simpl; [constructor|].
  destruct (f x); simpl.
  - now constructor.
  - apply Permutation_sym, Permutation_cons_app, Permutation_sym, IH.
Qed.

(** X8.  With at least one pattern, the reports of [FilterRegexp] and of
    [ExcludeRegexp] on the same patterns share out the diffs of the report:
    every diff goes to exactly one of the two. *)
Theorem regexp_filters_partition_the_diffs
    (r fr er : Report) (pattern : list string) :
  pattern <> [] ->
  FilterRegexp r pattern = Returns fr ->
  ExcludeRegexp r pattern = Returns er ->
  Permutation (Report_Diffs fr ++ Report_Diffs er) (Report_Diffs r)
  /\ List.length (Report_Diffs fr) + List.length (Report_Diffs er)
     = List.length (Report_Diffs r).
Proof.
  intros Hne Hf He. unfold FilterRegexp, ExcludeRegexp in *.
  destruct pattern as [|p pattern]; [congruence|].
  destruct (compile_patterns (p :: pattern)) as [regexps|]; [|discriminate].
  simpl in Hf, He. injection Hf as <-. injection He as <-.
  assert (Hperm : Permutation
                    (Report_Diffs (filter r (FilterRegexp_hasPath regexps))
                     ++ Report_Diffs (filter r (ExcludeRegexp_hasPath regexps)))
                    (Report_Diffs r)).
  { rewrite !filter_Diffs.
    rewrite (filter_ext (fun d => ExcludeRegexp_hasPath regexps (Diff_Path d))
               (fun d => negb (FilterRegexp_hasPath regexps (Diff_Path d))))
      by (intros d; apply ExcludeRegexp_hasPath_negb).
    apply filter_partition. }
  split; [exact Hperm|].
  rewrite <- length_app. now apply Permutation_length.
Qed.

(** *** What no filter does *)

Lemma Subsequence_refl {A} (l : list A) : Subsequence l l.
Proof. induction l; now constructor. Qed.

Lemma narrows_refl (r : Report) : narrows r r.
Proof. repeat split. apply Subsequence_refl. Qed.

Lemma narrows_filter (r : Report) (hasPath : option Path -> bool) :
  narrows (filter r hasPath) r.
Proof.
  repeat split. rewrite filter_Diffs. apply Subsequence_filter.
Qed.

(** X9.  None of the four operations changes the two documents, adds a
    diff, changes a diff or changes the order of the diffs, whatever the
    arguments, errors included. *)
Theorem filters_only_narrow (r : Report) (args : list string) :
  narrows (Filter r args) r
  /\ narrows (fst (Exclude r args)) r
  /\ (forall r', FilterRegexp r args = Returns r' -> narrows r' r)
  /\ (forall r', ExcludeRegexp r args = Returns r' -> narrows r' r).
Proof.
  split; [|split; [|split]].
  - unfold Filter. destruct args; [apply narrows_refl | apply narrows_filter].
  - unfold Exclude. destruct args; [apply narrows_refl|].
    destruct (Exclude_paths _); [apply narrows_filter | apply narrows_refl].
  - unfold FilterRegexp. destruct args; [intros r' [= <-]; apply narrows_refl|].
    destruct (compile_patterns _); simpl; [|discriminate].
    intros r' [= <-]. apply narrows_filter.
  - unfold ExcludeRegexp. destruct args; [intros r' [= <-]; apply narrows_refl|].
    destruct (compile_patterns _); simpl; [|discriminate].
    intros r' [= <-]. apply narrows_filter.
Qed.

(** *** How the filters compose *)

Lemma filter_twice {A} (f g : A -> bool) (l : list A) :
  List.filter g (List.filter f l) = List.filter (fun x => f x && g x) l.
Proof.
  induction l as [|x l IH]; simpl; [reflexivity|].
  destruct (f x); simpl; [destruct (g x)|]; now rewrite IH.
Qed.

Lemma filter_filter (r : Report) (f g : option Path -> bool) :
  filter (filter r f) g
  = mkReport (Report_From r) (Report_To r)
      (List.filter (fun d => f (Diff_Path d) && g (Diff_Path d)) (Report_Diffs r)).
Proof.
  rewrite (filter_eq (filter r f)), (filter_eq r). cbn [Report_From Report_To Report_Diffs].
  now rewrite filter_twice.
Qed.

Lemma filter_comm (r : Report) (f g : option Path -> bool) :
  filter (filter r f) g = filter (filter r g) f.
Proof.
  rewrite !filter_filter. f_equal. apply filter_ext. intros d. apply andb_comm.
Qed.

Lemma filter_idem (r : Report) (f : option Path -> bool) :
  filter (filter r f) f = filter r f.
Proof.
  rewrite filter_filter, filter_eq. f_equal. apply filter_ext. intros d.
  apply andb_diag.
Qed.

(** X10.  [Filter] and [Exclude] can be applied in either order: the
    report and the error are the same. *)
Theorem Filter_and_Exclude_commute (r : Report) (paths excluded : list string) :
  Exclude (Filter r paths) excluded
  = (Filter (fst (Exclude r excluded)) paths, snd (Exclude r excluded)).
Proof.
  unfold Exclude. destruct excluded as [|x excluded]; [reflexivity|].
  destruct (Exclude_paths (x :: excluded)) as [ps|e]; cbn [fst snd];
    [|reflexivity].
  unfold Filter. destruct paths as [|p paths]; [reflexivity|].
  now rewrite filter_comm.
Qed.

Lemma Exclude_hasPath_app (ps qs : list string) (p : option Path) :
  Exclude_hasPath None (ps ++ qs) p
  = Exclude_hasPath None ps p && Exclude_hasPath None qs p.
Proof.
  induction ps as [|s ps IH]; simpl; [reflexivity|].
  destruct p as [fp|]; simpl; [|exact IH].
  destruct (strings_HasPrefix (Path_String fp) s); [reflexivity | exact IH].
Qed.

Lemma Exclude_accepted (r : Report) (paths : list string) :
  paths <> [] ->
  (forall p, In p paths -> ~ refused p) ->
  Exclude r paths
  = (filter r
       (Exclude_hasPath None
          (map (fun p => Path_String (fst (ParsePathStringUnsafe p))) paths)),
     None).
Proof.
  intros Hne Hok. unfold Exclude. destruct paths as [|q paths]; [congruence|].
  rewrite Exclude_paths_accepted; [reflexivity|].
  intros p Hin. now apply not_refused_path_error, Hok.
Qed.

(** X11.  Excluding two lists of accepted paths one after the other is
    excluding their concatenation. *)
Theorem Exclude_of_concatenation (r : Report) (ps qs : list string) :
  ps <> [] ->
  qs <> [] ->
  (forall p, In p (ps ++ qs) -> ~ refused p) ->
  Exclude r (ps ++ qs) = Exclude (fst (Exclude r ps)) qs.
Proof.
  intros Hps Hqs Hok.
  rewrite (Exclude_accepted r (ps ++ qs)%list);
    [|intros H; apply app_eq_nil in H; now destruct H | exact Hok].
  rewrite (Exclude_accepted r ps);
    [|exact Hps | intros p Hin; apply Hok, in_or_app; now left].
  rewrite Exclude_accepted;
    [|exact Hqs | intros p Hin; apply Hok, in_or_app; now right].
  cbn [fst]. f_equal.
  rewrite filter_filter, filter_eq. f_equal.
  apply filter_ext. intros d. rewrite map_app. apply Exclude_hasPath_app.
Qed.

(** X12.  Applying [Filter], or [Exclude], a second time with the same
    arguments changes nothing. *)
Theorem Filter_and_Exclude_are_idempotent (r : Report) (paths : list string) :
  Filter (Filter r paths) paths = Filter r paths
  /\ Exclude (fst (Exclude r paths)) paths = Exclude r paths.
Proof.
  split.
  - unfold Filter. destruct paths; [reflexivity | apply filter_idem].
  - unfold Exclude. destruct paths as [|p paths]; [reflexivity|].
    destruct (Exclude_paths (p :: paths)); cbn [fst]; [|reflexivity].
    now rewrite filter_idem.
Qed.

End FilterLaws.
(* ================================================================== *)
(** ** What the renderer returns *)

Section RendererLaws.
Context {PL : PathLayer} {EN : Encoders} {DC : DyffCore}.

(** X13.  A removal is rendered with the removal field alone: the compact
    serialization of [From], [null] for a nil [From]; when the
    serialization fails, its error is returned with the zero detail. *)
Theorem removal_renders_From_alone (detail : Detail) :
  REMOVAL <> ADDITION ->
  Detail_Kind detail = REMOVAL ->
  (Detail_From detail = None ->
   generateJSONDetailOutput detail
   = Returns (mkJSONDiffDetail (string_of_rune REMOVAL) "" "null", None))
  /\ (forall n s,
        Detail_From detail = Some n -> ToCompactJSON n = (s, None) ->
        generateJSONDetailOutput detail
        = Returns (mkJSONDiffDetail (string_of_rune REMOVAL) "" s, None))
  /\ (forall n s e,
        Detail_From detail = Some n -> ToCompactJSON n = (s, Some e) ->
        generateJSONDetailOutput detail = Returns (JSONDiffDetail_zero, Some e)).
Proof.
  intros Ha Hk. unfold generateJSONDetailOutput.
  rewrite Hk, (kind_eqb_false _ _ Ha), Z.eqb_refl.
  split; [|split].
  - intros ->. reflexivity.
  - intros n s -> Hs. simpl. now rewrite Hs.
  - intros n s e -> Hs. simpl. now rewrite Hs.
Qed.

(** X14.  A detail whose kind is none of the four is not rendered: the
    error names the kind, and when the detail is the first of a report to
    fail, [GenReport] returns that error and the zero document. *)
Theorem unsupported_kind_fails_the_report (detail : Detail) :
  Detail_Kind detail <> ADDITION ->
  Detail_Kind detail <> REMOVAL ->
  Detail_Kind detail <> MODIFICATION ->
  Detail_Kind detail <> ORDERCHANGE ->
  generateJSONDetailOutput detail
  = Returns (JSONDiffDetail_zero,
             Some (errors_New ("unsupported detail type "
                               ++ string_of_rune (Detail_Kind detail))))
  /\ (forall report,
        first_to_fail report detail ->
        GenReport report
        = Returns (JSONReportSpec_zero,
                   Some (errors_New ("unsupported detail type "
                                     ++ string_of_rune (Detail_Kind detail))))).
Proof.
  intros Ha Hr Hm Ho.
  assert (H : generateJSONDetailOutput detail
              = Returns (JSONDiffDetail_zero,
                         Some (errors_New ("unsupported detail type "
                                           ++ string_of_rune (Detail_Kind detail))))).
  { unfold generateJSONDetailOutput.
    now rewrite (kind_eqb_false _ _ Ha), (kind_eqb_false _ _ Hr),
      (kind_eqb_false _ _ Hm), (kind_eqb_false _ _ Ho). }
  split; [exact H|]. intros report Hfirst.
  exact (GenReport_first_error report detail _ _ Hfirst H).
Qed.

(** X15.  A modification between nodes that are not both of type [string]
    and not both of type [binary], a string and a binary for one, is
    rendered by the compact serializations of [From] and of [To]; the
    first serialization that fails gives the error, with a detail that has
    the kind only. *)
Theorem modification_of_other_types_is_serialized
    (detail : Detail) (fromType toType : string) :
  MODIFICATION <> ADDITION ->
  MODIFICATION <> REMOVAL ->
  Detail_Kind detail = MODIFICATION ->
  humanReadableType (Detail_From detail) = Returns fromType ->
  humanReadableType (Detail_To detail) = Returns toType ->
  ~ (fromType = "string" /\ toType = "string") ->
  ~ (fromType = "binary" /\ toType = "binary") ->
  generateJSONDetailOutput detail
  = Returns
      match jsonString (Detail_From detail), jsonString (Detail_To detail) with
      | (_, Some e), _ =>
          (mkJSONDiffDetail (string_of_rune MODIFICATION) "" "", Some e)
      | (_, None), (_, Some e) =>
          (mkJSONDiffDetail (string_of_rune MODIFICATION) "" "", Some e)
      | (from, None), (to, None) =>
          (mkJSONDiffDetail (string_of_rune MODIFICATION) to from, None)
      end.
Proof.
  intros Ha Hr Hk Hf Ht Hs Hb.
  unfold generateJSONDetailOutput.
  rewrite Hk, (kind_eqb_false _ _ Ha), (kind_eqb_false _ _ Hr), Z.eqb_refl.
  unfold generateJSONDetailOutputModification.
  rewrite Hf, Ht, Hk. simpl.
  destruct (String.eqb_spec fromType "string") as [Hfs|Hfs];
    destruct (String.eqb_spec toType "string") as [Hts|Hts]; simpl;
    try (exfalso; apply Hs; now split);
    destruct (String.eqb_spec fromType "binary") as [Hfb|Hfb];
    destruct (String.eqb_spec toType "binary") as [Htb|Htb]; simpl;
    try (exfalso; apply Hb; now split);
    destruct (jsonString (Detail_From detail)) as [from [e|]]; try reflexivity;
    destruct (jsonString (Detail_To detail)) as [to [e|]]; reflexivity.
Qed.

Ltac split_detail H :=
  repeat (cbn [exec_bind deref] in H;
          match type of H with
          | context [deref ?p] => destruct p
          | context [if ?c then _ else _] => destruct c
          | context [match ?x with _ => _ end] => destruct x
          end);
  cbn [exec_bind deref] in H; try discriminate H.

Ltac finish_detail :=
  split;
  [ intros He; try discriminate He; reflexivity
  | intros He; try (exfalso; apply He; reflexivity); split; reflexivity ].

Lemma detail_output_cases (detail : Detail) (out : JSONDiffDetail)
    (err : option error) :
  generateJSONDetailOutput detail = Returns (out, err) ->
  (err = None -> JSONDiffDetail_Kind out = string_of_rune (Detail_Kind detail))
  /\ (err <> None ->
      JSONDiffDetail_Addition out = "" /\ JSONDiffDetail_Removal out = "").
Proof.
  unfold generateJSONDetailOutput.
  destruct (Z.eqb_spec (Detail_Kind detail) ADDITION) as [->|_].
  { destruct (jsonString (Detail_To detail)) as [s [e|]]; intros [= <- <-];
      finish_detail. }
  destruct (Z.eqb_spec (Detail_Kind detail) REMOVAL) as [->|_].
  { destruct (jsonString (Detail_From detail)) as [s [e|]]; intros [= <- <-];
      finish_detail. }
  destruct (Z.eqb (Detail_Kind detail) MODIFICATION).
  { unfold generateJSONDetailOutputModification. intros H.
    destruct (humanReadableType (Detail_From detail)); cbn [exec_bind] in H;
      [|discriminate].
    destruct (humanReadableType (Detail_To detail)); cbn [exec_bind] in H;
      [|discriminate].
    split_detail H; injection H as <- <-; finish_detail. }
  destruct (Z.eqb (Detail_Kind detail) ORDERCHANGE).
  { unfold generateJSONDetailOutputOrderchange. intros H.
    destruct (Detail_From detail) as [f|]; cbn [exec_bind deref] in H;
      [|discriminate].
    destruct (N.eqb (Node_Kind f) SequenceNode).
    - destruct (asJSONArray (Some f)) as [[from [e|]]|];
        cbn [exec_bind] in H; try discriminate.
      + injection H as <- <-. finish_detail.
      + destruct (asJSONArray (Detail_To detail)) as [[to [e|]]|];
          cbn [exec_bind] in H; try discriminate;
          injection H as <- <-; finish_detail.
    - injection H as <- <-. finish_detail. }
  intros [= <- <-]. finish_detail.
Qed.

(** X16.  The kind of a rendered detail is the string of its kind rune,
    for each of the four kinds. *)
Theorem rendered_detail_has_the_kind_of_the_detail
    (detail : Detail) (out : JSONDiffDetail) :
  generateJSONDetailOutput detail = Returns (out, None) ->
  JSONDiffDetail_Kind out = string_of_rune (Detail_Kind detail).
Proof. intros H. now apply (detail_output_cases detail out None H). Qed.

(** X17.  A detail returned with an error has no addition and no removal:
    nothing is rendered in part. *)
Theorem failed_detail_has_no_fields
    (detail : Detail) (out : JSONDiffDetail) (e : error) :
  generateJSONDetailOutput detail = Returns (out, Some e) ->
  JSONDiffDetail_Addition out = "" /\ JSONDiffDetail_Removal out = "".
Proof.
  intros H. now apply (detail_output_cases detail out (Some e) H).
Qed.

(** *** The document *)

Lemma generateJSONDiffOutput_loop_ok (ds : list Detail) (outs : list JSONDiffDetail) :
  Forall2 rendered_as ds outs ->
  forall pre,
    generateJSONDiffOutput_loop ds (List.length pre)
      (pre ++ make JSONDiffDetail_zero (List.length ds))
    = Returns (inl (pre ++ outs)%list).
Proof.
  induction 1 as [|d o ds outs Hd _ IH]; intros pre; simpl; [reflexivity|].
  unfold rendered_as in Hd. rewrite Hd. simpl. rewrite slice_set_at. simpl.
  rewrite (length_snoc pre o), (snoc_app pre o (make _ _)), (snoc_app pre o outs).
  apply IH.
Qed.

Lemma generateJSONDiffOutput_loop_inl (ds : list Detail) :
  forall pre details,
    generateJSONDiffOutput_loop ds (List.length pre)
      (pre ++ make JSONDiffDetail_zero (List.length ds))
    = Returns (inl details) ->
    exists outs, details = (pre ++ outs)%list /\ Forall2 rendered_as ds outs.
Proof.
  induction ds as [|d ds IH]; intros pre details; simpl.
  - intros [= <-]. exists []. split; [reflexivity | constructor].
  - destruct (generateJSONDetailOutput d) as [[o [e|]]|] eqn:Hd; simpl;
      try discriminate.
    rewrite slice_set_at. simpl.
    rewrite (length_snoc pre o), (snoc_app pre o (make _ _)).
    intros Hloop. destruct (IH _ _ Hloop) as [outs [-> Houts]].
    exists (o :: outs). split; [now rewrite <- app_assoc|].
    now constructor.
Qed.

Lemma generateJSONDiffOutput_loop_inr (ds : list Detail) :
  forall pre e,
    generateJSONDiffOutput_loop ds (List.length pre)
      (pre ++ make JSONDiffDetail_zero (List.length ds))
    = Returns (inr e) ->
    exists before detail after x,
      ds = (before ++ detail :: after)%list
      /\ Forall renders before
      /\ generateJSONDetailOutput detail = Returns (x, Some e).
Proof.
  induction ds as [|d ds IH]; intros pre e; simpl; [discriminate|].
  destruct (generateJSONDetailOutput d) as [[o [e'|]]|] eqn:Hd; simpl;
    try discriminate.
  - intros [= <-]. exists [], d, ds, o. repeat split; [constructor | exact Hd].
  - rewrite slice_set_at. simpl.
    rewrite (length_snoc pre o), (snoc_app pre o (make _ _)).
    intros Hloop.
    destruct (IH _ _ Hloop) as (before & detail & after & x & -> & Hb & Hx).
    exists (d :: before), detail, after, x. repeat split; [|exact Hx].
    constructor; [now exists o | exact Hb].
Qed.

Lemma generateJSONDiffOutput_Some (report : JSONReport) (diff : Diff) (jd : JSONDiff) :
  generateJSONDiffOutput diff (UseGoPatchPaths report)
    (1 <? List.length (Documents (Report_From (JSONReport_Report report))))%nat
  = Returns (Some jd, None)
  <-> diff_rendered_as report diff jd.
Proof.
  unfold generateJSONDiffOutput, diff_rendered_as. split.
  - destruct (generateJSONDiffOutput_loop _ _ _) as [[details|e]|] eqn:Hloop;
      simpl; try discriminate.
    destruct (pathToString _ _ _) as [path|]; simpl; [|discriminate].
    intros [= <-]. simpl. split; [reflexivity|].
    destruct (generateJSONDiffOutput_loop_inl _ [] _ Hloop) as [outs [-> Houts]].
    exact Houts.
  - intros [Hpath Hdetails].
    pose proof (generateJSONDiffOutput_loop_ok _ _ Hdetails []) as Hloop.
    simpl in Hloop. rewrite Hloop. simpl. rewrite Hpath. simpl.
    now destruct jd.
Qed.

Lemma generateJSONDiffOutput_error (diff : Diff) (g s : bool)
    (jd : option JSONDiff) (e : error) :
  generateJSONDiffOutput diff g s = Returns (jd, Some e) ->
  jd = None
  /\ exists before detail after x,
       Diff_Details diff = (before ++ detail :: after)%list
       /\ Forall renders before
       /\ generateJSONDetailOutput detail = Returns (x, Some e).
Proof.
  unfold generateJSONDiffOutput.
  destruct (generateJSONDiffOutput_loop _ _ _) as [[details|e']|] eqn:Hloop;
    simpl; try discriminate.
  - destruct (pathToString _ _ _); simpl; discriminate.
  - intros [= <- <-]. split; [reflexivity|].
    exact (generateJSONDiffOutput_loop_inr _ [] _ Hloop).
Qed.

Lemma GenReport_loop_ok (report : JSONReport) (ds : list Diff) (jds : list JSONDiff) :
  Forall2 (diff_rendered_as report) ds jds ->
  forall pre,
    GenReport_loop report
      (1 <? List.length (Documents (Report_From (JSONReport_Report report))))%nat
      ds (List.length pre) (pre ++ make JSONDiff_zero (List.length ds))
    = Returns (inl (pre ++ jds)%list).
Proof.
  induction 1 as [|d jd ds jds Hd _ IH]; intros pre; simpl; [reflexivity|].
  apply generateJSONDiffOutput_Some in Hd. rewrite Hd. simpl.
  rewrite slice_set_at. simpl.
  rewrite (length_snoc pre jd), (snoc_app pre jd (make _ _)), (snoc_app pre jd jds).
  apply IH.
Qed.

Lemma GenReport_loop_inl (report : JSONReport) (ds : list Diff) :
  forall pre diffs,
    GenReport_loop report
      (1 <? List.length (Documents (Report_From (JSONReport_Report report))))%nat
      ds (List.length pre) (pre ++ make JSONDiff_zero (List.length ds))
    = Returns (inl diffs) ->
    exists jds, diffs = (pre ++ jds)%list
                /\ Forall2 (diff_rendered_as report) ds jds.
Proof.
  induction ds as [|d ds IH]; intros pre diffs; simpl.
  - intros [= <-]. exists []. split; [reflexivity | constructor].
  - destruct (generateJSONDiffOutput d _ _) as [[[jd|] [e|]]|] eqn:Hd; simpl;
      try discriminate.
    rewrite slice_set_at. simpl.
    rewrite (length_snoc pre jd), (snoc_app pre jd (make _ _)).
    intros Hloop. destruct (IH _ _ Hloop) as [jds [-> Hjds]].
    exists (jd :: jds). split; [now rewrite <- app_assoc|].
    constructor; [now apply generateJSONDiffOutput_Some | exact Hjds].
Qed.

Lemma GenReport_loop_inr (report : JSONReport) (ds : list Diff) :
  forall pre e,
    GenReport_loop report
      (1 <? List.length (Documents (Report_From (JSONReport_Report report))))%nat
      ds (List.length pre) (pre ++ make JSONDiff_zero (List.length ds))
    = Returns (inr e) ->
    exists diffs_before diff diffs_after jd,
      ds = (diffs_before ++ diff :: diffs_after)%list
      /\ Forall (diff_renders report) diffs_before
      /\ generateJSONDiffOutput diff (UseGoPatchPaths report)
           (1 <? List.length (Documents (Report_From (JSONReport_Report report))))%nat
         = Returns (jd, Some e).
Proof.
  induction ds as [|d ds IH]; intros pre e; simpl; [discriminate|].
  destruct (generateJSONDiffOutput d _ _) as [[jd [e'|]]|] eqn:Hd; simpl;
    try discriminate.
  - intros [= <-]. exists [], d, ds, jd. repeat split; [constructor | exact Hd].
  - destruct jd as [jd|]; simpl; [|discriminate].
    rewrite slice_set_at. simpl.
    rewrite (length_snoc pre jd), (snoc_app pre jd (make _ _)).
    intros Hloop.
    destruct (IH _ _ Hloop) as (before & diff & after & jd' & -> & Hb & Hx).
    exists (d :: before), diff, after, jd'. repeat split; [|exact Hx].
    constructor; [now exists jd | exact Hb].
Qed.

(** X18.  [GenReport] returns a document without an error exactly when
    every detail of every diff is rendered without an error (and every
    path is rendered): the document counts the diffs of the report and has
    one entry for each diff, in the order of the diffs, with one rendered
    detail for each detail, in their order. *)
Theorem GenReport_renders_every_diff_in_order
    (report : JSONReport) (spec : JSONReportSpec) :
  GenReport report = Returns (spec, None)
  <-> Changes (Summary spec)
      = Z.of_nat (List.length (Report_Diffs (JSONReport_Report report)))
      /\ Forall2 (diff_rendered_as report)
           (Report_Diffs (JSONReport_Report report)) (Differences spec).
Proof.
  unfold GenReport. split.
  - destruct (GenReport_loop _ _ _ _ _) as [[diffs|e]|] eqn:Hloop; simpl;
      try discriminate.
    intros [= <-]. simpl. split; [reflexivity|].
    destruct (GenReport_loop_inl report _ [] _ Hloop) as [jds [-> Hjds]].
    exact Hjds.
  - intros [Hchanges Hdiffs].
    pose proof (GenReport_loop_ok report _ _ Hdiffs []) as Hloop.
    simpl in Hloop. rewrite Hloop. simpl.
    destruct spec as [[changes] differences]. simpl in *. now subst changes.
Qed.

(** X19.  [GenReport] returns an error exactly when some detail fails: the
    error is the one of the first detail to fail, in the order of the diffs
    and of their details, and the document returned with it is the zero
    document. *)
Theorem GenReport_returns_the_first_error
    (report : JSONReport) (spec : JSONReportSpec) (e : error) :
  GenReport report = Returns (spec, Some e)
  <-> spec = JSONReportSpec_zero
      /\ exists detail x,
           first_to_fail report detail
           /\ generateJSONDetailOutput detail = Returns (x, Some e).
Proof.
  split.
  - unfold GenReport.
    destruct (GenReport_loop _ _ _ _ _) as [[diffs|e']|] eqn:Hloop; simpl;
      try discriminate.
    intros [= <- <-]. split; [reflexivity|].
    destruct (GenReport_loop_inr report _ [] _ Hloop)
      as (diffs_before & diff & diffs_after & jd & Hdiffs & Hbefore & Hdiff).
    destruct (generateJSONDiffOutput_error _ _ _ _ _ Hdiff)
      as (_ & before & detail & after & x & Hdetails & Hb & Hx).
    exists detail, x. split; [|exact Hx].
    now exists diffs_before, diff, diffs_after, before, after.
  - intros [-> (detail & x & Hfirst & Hx)].
    exact (GenReport_first_error report detail x e Hfirst Hx).
Qed.

(** X20.  An order change is rendered through its nodes without a nil
    test: with a nil [From] the call panics, and so it does with a nil
    [To] once the array of a sequence [From] is built. *)
Theorem order_change_of_nil_node_panics (detail : Detail) :
  ORDERCHANGE <> ADDITION ->
  ORDERCHANGE <> REMOVAL ->
  ORDERCHANGE <> MODIFICATION ->
  Detail_Kind detail = ORDERCHANGE ->
  (Detail_From detail = None -> generateJSONDetailOutput detail = Panics)
  /\ (forall f from,
        Detail_From detail = Some f ->
        Node_Kind f = SequenceNode ->
        asJSONArray (Some f) = Returns (from, None) ->
        Detail_To detail = None ->
        generateJSONDetailOutput detail = Panics).
Proof.
  intros Ha Hr Hm Hk.
  unfold generateJSONDetailOutput.
  rewrite Hk, (kind_eqb_false _ _ Ha), (kind_eqb_false _ _ Hr),
    (kind_eqb_false _ _ Hm), Z.eqb_refl.
  unfold generateJSONDetailOutputOrderchange. split.
  - intros ->. reflexivity.
  - intros f from -> Hseq Hfrom ->. simpl. rewrite Hseq. simpl.
    now rewrite Hfrom.
Qed.

End RendererLaws.
(* ================================================================== *)
(** ** What reaches the sink *)

Section WriterLaws.
Context {W : Type} {IOW : io_Writer W}.
Context {PL : PathLayer} {EN : Encoders} {DC : DyffCore}.

Lemma str_append_nil_r (s : string) : s ++ "" = s.
Proof. induction s as [|a s IH]; simpl; [reflexivity | now rewrite IH]. Qed.

Lemma str_append_assoc (s1 s2 s3 : string) : (s1 ++ s2) ++ s3 = s1 ++ s2 ++ s3.
Proof. induction s1 as [|a s1 IH]; simpl; [reflexivity | now rewrite IH]. Qed.

Lemma str_take_drop (n : nat) (s : string) : str_take n s ++ str_drop n s = s.
Proof.
  revert s. induction n as [|n IH]; intros [|a s]; simpl; try reflexivity.
  now rewrite IH.
Qed.

Lemma WriteString_loop_step (fuel : nat) (b : bufio_Writer W) (s : string) (nn : Z) :
  (Available b <? String.length s)%nat && is_nil (bufio_err b) = true ->
  WriteString_loop (S fuel) b s nn
  = WriteString_loop fuel
      (fst (Flush (mk_bufio_Writer (bufio_err b)
                     (bufio_buf b
                      ++ str_take (Nat.min (Available b) (String.length s)) s)
                     (bufio_wr b))))
      (str_drop (Nat.min (Available b) (String.length s)) s)
      (nn + Z.of_nat (Nat.min (Available b) (String.length s))).
Proof. intros H. simpl. rewrite H. now destruct (Flush _). Qed.

(** X21.  When the renderer or the serializer fails, [WriteReport] returns
    that error and the sink is not written to. *)
Theorem WriteReport_writes_nothing_on_failure
    (report : JSONReport) (out : W) (e : error) :
  (exists x, GenReport report = Returns (x, Some e))
  \/ (exists spec doc,
        GenReport report = Returns (spec, None)
        /\ json_Marshal_report spec = (doc, Some e)) ->
  WriteReport report out = (Returns (Some e), out).
Proof.
  intros [[x Hgen]|(spec & doc & Hgen & Hdoc)]; unfold WriteReport;
    rewrite Hgen; [reflexivity|]. now rewrite Hdoc.
Qed.

Lemma Flush_accepting (contents : W -> string) (b : bufio_Writer W) :
  accepts_all contents ->
  bufio_err b = None ->
  exists b',
    Flush b = (b', None)
    /\ bufio_err b' = None
    /\ bufio_buf b' = ""
    /\ contents (bufio_wr b') = contents (bufio_wr b) ++ bufio_buf b.
Proof.
  intros Hacc Herr. unfold Flush. rewrite Herr.
  destruct (Nat.eqb_spec (String.length (bufio_buf b)) 0) as [H0|_].
  - exists b. apply str_length_0 in H0. rewrite H0.
    repeat split; try assumption. now rewrite str_append_nil_r.
  - destruct (Hacc (bufio_wr b) (bufio_buf b)) as [Hres Hcont].
    destruct (Write (bufio_wr b) (bufio_buf b)) as [[n err] wr].
    simpl in Hres, Hcont. injection Hres as -> ->.
    rewrite Z.ltb_irrefl. simpl.
    eexists. repeat split. exact Hcont.
Qed.

(** The loop of [WriteString] over a sink that takes everything: what is
    left of the string fits the buffer, the rest is in the sink. *)
Lemma WriteString_loop_accepting (contents : W -> string) (fuel : nat) :
  accepts_all contents ->
  forall (b : bufio_Writer W) (s : string) (nn : Z),
    bufio_err b = None ->
    bufio_buf b = "" ->
    String.length s < fuel ->
    exists b' s' nn',
      WriteString_loop fuel b s nn = (b', s', nn')
      /\ bufio_err b' = None
      /\ bufio_buf b' = ""
      /\ String.length s' <= defaultBufSize
      /\ contents (bufio_wr b') ++ s' = contents (bufio_wr b) ++ s.
Proof.
  intros Hacc. pose proof defaultBufSize_pos as Hpos.
  induction fuel as [|fuel IH]; intros b s nn Herr Hbuf Hfuel; [lia|].
  assert (Hav : Available b = defaultBufSize)
    by (unfold Available; rewrite Hbuf; apply Nat.sub_0_r).
  destruct (Nat.ltb_spec (Available b) (String.length s)) as [Hlt|Hge].
  - rewrite WriteString_loop_step
      by (rewrite (proj2 (Nat.ltb_lt _ _) Hlt), Herr; reflexivity).
    rewrite Nat.min_l by lia. rewrite Hav in *.
    destruct (Flush_accepting contents
                (mk_bufio_Writer (bufio_err b)
                   (bufio_buf b ++ str_take defaultBufSize s) (bufio_wr b))
                Hacc Herr) as (b2 & Hflush & Herr2 & Hbuf2 & Hcont2).
    rewrite Hflush. cbn [fst].
    destruct (IH b2 (str_drop defaultBufSize s) (nn + Z.of_nat defaultBufSize)%Z
                Herr2 Hbuf2) as (b' & s' & nn' & Hloop & He & Hb & Hl & Hc).
    { rewrite str_drop_length. lia. }
    exists b', s', nn'. repeat split; try assumption.
    rewrite Hc, Hcont2. cbn [bufio_wr bufio_buf]. rewrite Hbuf. cbn [append].
    now rewrite str_append_assoc, str_take_drop.
  - exists b, s, nn. rewrite WriteString_loop_stop
      by (rewrite (proj2 (Nat.ltb_ge _ _) Hge); reflexivity).
    repeat split; try assumption. lia.
Qed.

(** X22.  Over a sink that takes every write, [WriteReport] returns a nil
    error and the sink has taken the serialized document, whole and once,
    after what it held: the last part too, by the deferred [Flush]. *)
Theorem WriteReport_delivers_the_document
    (contents : W -> string) (report : JSONReport) (out : W)
    (spec : JSONReportSpec) (doc : string) :
  accepts_all contents ->
  GenReport report = Returns (spec, None) ->
  json_Marshal_report spec = (doc, None) ->
  fst (WriteReport report out) = Returns None
  /\ contents (snd (WriteReport report out)) = contents out ++ doc.
Proof.
  intros Hacc Hgen Hdoc. unfold WriteReport. rewrite Hgen, Hdoc.
  unfold WriteString.
  destruct (WriteString_loop_accepting contents (2 * String.length doc + 2) Hacc
              (bufio_NewWriter out) doc 0%Z eq_refl eq_refl ltac:(lia))
    as (b' & s' & nn' & Hloop & He & Hb & Hl & Hc).
  rewrite Hloop, He.
  assert (Hav : Available b' = defaultBufSize)
    by (unfold Available; rewrite Hb; apply Nat.sub_0_r).
  rewrite Hav, Nat.min_r by exact Hl. rewrite str_take_all by lia.
  destruct (Flush_accepting contents
              (mk_bufio_Writer None (bufio_buf b' ++ s') (bufio_wr b'))
              Hacc eq_refl) as (b3 & Hflush & _ & _ & Hcont3).
  rewrite Hflush. cbn [fst snd]. split; [reflexivity|].
  rewrite Hcont3. cbn [bufio_wr bufio_buf]. rewrite Hb. cbn [append].
  exact Hc.
Qed.

(** The first write of a document longer than the buffer: what [Flush]
    makes of the answer of the sink is what [WriteReport] returns, and the
    sink is not written to again. *)
Lemma WriteReport_first_write (report : JSONReport) (out : W)
    (spec : JSONReportSpec) (doc : string) (n : Z) (err : option error)
    (wr : W) (e : error) :
  GenReport report = Returns (spec, None) ->
  json_Marshal_report spec = (doc, None) ->
  defaultBufSize < String.length doc ->
  Write out (str_take defaultBufSize doc) = ((n, err), wr) ->
  (if (n <? Z.of_nat defaultBufSize)%Z && is_nil err
   then Some io_ErrShortWrite else err) = Some e ->
  WriteReport report out = (Returns (Some e), wr).
Proof.
  intros Hgen Hdoc Hlen Hwrite Herr.
  pose proof defaultBufSize_pos as Hpos.
  unfold WriteReport. rewrite Hgen, Hdoc. unfold WriteString.
  replace (2 * String.length doc + 2) with (S (2 * String.length doc + 1)) by lia.
  assert (Hav : Available (bufio_NewWriter out) = defaultBufSize)
    by (unfold Available; apply Nat.sub_0_r).
  rewrite WriteString_loop_step
    by (rewrite Hav, (proj2 (Nat.ltb_lt _ _) Hlen); reflexivity).
  rewrite Hav, Nat.min_l by lia.
  cbn [bufio_NewWriter bufio_err bufio_buf bufio_wr]. cbn [append].
  assert (Hflush : Flush (mk_bufio_Writer None (str_take defaultBufSize doc) out)
                   = (mk_bufio_Writer (Some e)
                        (str_drop (Z.to_nat n) (str_take defaultBufSize doc)) wr,
                      Some e)).
  { unfold Flush. cbn [bufio_err bufio_buf bufio_wr].
    rewrite str_take_length, Nat.min_l by lia.
    destruct (Nat.eqb_spec defaultBufSize 0) as [H0|_]; [lia|].
    rewrite Hwrite, Herr. reflexivity. }
  rewrite Hflush. cbn [fst].
  rewrite WriteString_loop_stop by (cbn [bufio_err is_nil]; apply andb_false_r).
  reflexivity.
Qed.

(** X23.  When the first write of a document longer than the buffer fails,
    [WriteReport] returns the error of the sink as it is, and writes no
    more. *)
Theorem WriteReport_returns_the_error_of_a_write
    (report : JSONReport) (out : W) (spec : JSONReportSpec) (doc : string)
    (n : Z) (e : error) (wr : W) :
  GenReport report = Returns (spec, None) ->
  json_Marshal_report spec = (doc, None) ->
  defaultBufSize < String.length doc ->
  Write out (str_take defaultBufSize doc) = ((n, Some e), wr) ->
  WriteReport report out = (Returns (Some e), wr).
Proof.
  intros Hgen Hdoc Hlen Hwrite.
  apply (WriteReport_first_write report out spec doc n (Some e) wr e
           Hgen Hdoc Hlen Hwrite).
  cbn [is_nil]. now rewrite andb_false_r.
Qed.

(** X24.  When the sink takes less than it is given in that first write
    and reports no error, [WriteReport] returns [io.ErrShortWrite]. *)
Theorem WriteReport_reports_a_short_write
    (report : JSONReport) (out : W) (spec : JSONReportSpec) (doc : string)
    (n : Z) (wr : W) :
  GenReport report = Returns (spec, None) ->
  json_Marshal_report spec = (doc, None) ->
  defaultBufSize < String.length doc ->
  Write out (str_take defaultBufSize doc) = ((n, None), wr) ->
  (n < Z.of_nat defaultBufSize)%Z ->
  WriteReport report out = (Returns (Some io_ErrShortWrite), wr).
Proof.
  intros Hgen Hdoc Hlen Hwrite Hn.
  apply (WriteReport_first_write report out spec doc n None wr io_ErrShortWrite
           Hgen Hdoc Hlen Hwrite).
  now rewrite (proj2 (Z.ltb_lt _ _) Hn).
Qed.

End WriterLaws.

(* ================================================================== *)
(** ** The statements on concrete reports *)

Import Sample.

(** *** The filters *)

(** C2, the claim as it stands.  With no argument, [Filter] and
    [FilterRegexp] return the report as it is, and the diff with the nil
    path is still there. *)
Lemma nil_path_kept_by_Filter_without_arguments :
  Diff_Path root_diff = None
  /\ In root_diff (Report_Diffs report)
  /\ In root_diff (Report_Diffs (Filter report []))
  /\ FilterRegexp report [] = Returns report.
Proof. repeat split; simpl; auto. Qed.

Lemma nil_path_dropped_by_inclusion_kept_by_exclusion_witness :
  ["spec.name"] <> []
  /\ ["name"] <> []
  /\ Report_Diffs (Filter report ["spec.name"]) = [name_diff]
  /\ FilterRegexp report ["name"] = Returns (mkReport (file 1) (file 1) [name_diff])
  /\ Exclude report ["/spec"] = (mkReport (file 1) (file 1) [root_diff], None)
  /\ ExcludeRegexp report ["name"]
     = Returns (mkReport (file 1) (file 1) [root_diff])
  /\ (forall d, In d (Report_Diffs (Filter report ["spec.name"])) ->
                Diff_Path d <> None).
Proof.
  split; [discriminate|]. split; [discriminate|].
  split; [reflexivity|]. split; [reflexivity|]. split; [reflexivity|].
  split; [reflexivity|].
  apply (@nil_path_dropped_by_inclusion_kept_by_exclusion paths regexps
           report ["spec.name"] ["/spec"] ["name"] ["name"] ["name"] ["name"]);
    [discriminate | discriminate | reflexivity | reflexivity].
Defined.

Lemma Exclude_fails_on_refused_path_witness :
  (exists p, In p ["/spec"; "not/a/slash/path"] /\ refused p)
  /\ Exclude report ["/spec"; "not/a/slash/path"]
     = (report,
        Some (errors_New
                "exclude path should be a Go Patch, but got not/a/slash/path"))
  /\ exists good p rest e,
       ["/spec"; "not/a/slash/path"] = (good ++ p :: rest)%list
       /\ (forall q, In q good -> ~ refused q)
       /\ refused p
       /\ path_error p = Some e
       /\ Exclude report ["/spec"; "not/a/slash/path"] = (report, Some e).
Proof.
  assert (H : exists p, In p ["/spec"; "not/a/slash/path"] /\ refused p).
  { exists "not/a/slash/path". split; [simpl; auto | left; reflexivity]. }
  split; [exact H|]. split; [reflexivity|].
  apply (Exclude_fails_on_refused_path report _ H).
Defined.

(** A pattern that does not compile: the call panics. *)
Example FilterRegexp_panics_on_bad_pattern :
  FilterRegexp report ["name"; "("] = Panics
  /\ ExcludeRegexp report ["("] = Panics.
Proof. split; reflexivity. Qed.

(** *** The renderer *)

Lemma modification_of_strings_uses_raw_values_witness :
  humanReadableType (Detail_From strings_detail) = Returns "string"
  /\ humanReadableType (Detail_To strings_detail) = Returns "string"
  /\ generateJSONDetailOutput strings_detail
     = Returns (mkJSONDiffDetail (string_of_rune MODIFICATION) "b" "a", None).
Proof.
  split; [reflexivity|]. split; [reflexivity|].
  exact (proj2 (@modification_of_strings_uses_raw_values paths encoders core
                  strings_detail
                  (str "a") (str "b")
                  ltac:(discriminate) ltac:(discriminate)
                  eq_refl eq_refl eq_refl eq_refl eq_refl)).
Defined.

Lemma modification_of_binaries_dumps_or_fails_witness :
  base64_DecodeString "aGVsbG8=" = ("hello", None)
  /\ base64_DecodeString "d29ybGQ=" = ("world", None)
  /\ generateJSONDetailOutput binaries_detail
     = Returns (mkJSONDiffDetail (string_of_rune MODIFICATION)
                  (hex_Dump "world") (hex_Dump "hello"), None)
  /\ generateJSONDetailOutput half_binary_detail
     = Returns (mkJSONDiffDetail (string_of_rune MODIFICATION) "" "",
                Some (errors_New "illegal base64 data at input byte 4"))
  /\ GenReport half_binary_report
     = Returns (JSONReportSpec_zero,
                Some (errors_New "illegal base64 data at input byte 4")).
Proof.
  pose proof (@modification_of_binaries_dumps_or_fails paths encoders core
                half_binary_detail (bin "aGVsbG8=") (bin "d29ybGQ")
                ltac:(discriminate) ltac:(discriminate)
                eq_refl eq_refl eq_refl eq_refl eq_refl) as [Hhalf Hreport].
  split; [reflexivity|]. split; [reflexivity|]. split; [|split].
  - exact (proj1 (@modification_of_binaries_dumps_or_fails paths encoders core
                    binaries_detail (bin "aGVsbG8=") (bin "d29ybGQ=")
                    ltac:(discriminate) ltac:(discriminate)
                    eq_refl eq_refl eq_refl eq_refl eq_refl)).
  - exact Hhalf.
  - apply (Hreport half_binary_report
             (mkJSONDiffDetail (string_of_rune MODIFICATION) "" "")
             (errors_New "illegal base64 data at input byte 4") Hhalf).
    exists [name_diff], blob_diff, [], [], [].
    split; [reflexivity|]. split; [reflexivity|]. split.
    + constructor; [|constructor]. eexists. reflexivity.
    + constructor.
Defined.

(** The dumps are text blocks of [hex.Dump]. *)
Example hex_Dump_hello :
  hex_Dump "hello"
  = "00000000  68 65 6c 6c 6f                                    |hello|"
    ++ String (ascii_of_nat 10) "".
Proof. reflexivity. Qed.

(** The failing detail in a report: nothing is rendered, nothing written. *)
Example half_binary_report_is_not_written :
  WriteReport half_binary_report (mkSink "" 100)
  = (Returns (Some (errors_New "illegal base64 data at input byte 4")),
     mkSink "" 100).
Proof. reflexivity. Qed.

Lemma order_change_renders_arrays_of_texts_witness :
  Node_Kind (seq [str "x"; str "y"; str "z"]) = SequenceNode
  /\ Node_Kind (str "x") <> SequenceNode
  /\ generateJSONDetailOutput order_detail
     = Returns (mkJSONDiffDetail (string_of_rune ORDERCHANGE)
                  (json_array ["z"; "x"; "y"]) (json_array ["x"; "y"; "z"]),
                None)
  /\ generateJSONDetailOutput scalar_order_detail
     = Returns (mkJSONDiffDetail (string_of_rune ORDERCHANGE) "" "", None)
  /\ Forall2 has_text (Node_Content mixed_sequence) [dq ++ dq; "x"; "{}"]
  /\ ToCompactJSON (str "") = (dq ++ dq, None)
  /\ ToCompactJSON (map_ []) = ("{}", None)
  /\ generateJSONDetailOutput mixed_order_detail
     = Returns (mkJSONDiffDetail (string_of_rune ORDERCHANGE)
                  (json_array ["{}"; escaped_empty_string; "x"])
                  (json_array [escaped_empty_string; "x"; "{}"]),
                None).
Proof.
  assert (Hmixed : Forall2 has_text (Node_Content mixed_sequence)
                     [dq ++ dq; "x"; "{}"])
    by (repeat constructor; eexists; split; reflexivity).
  split; [reflexivity|]. split; [discriminate|]. split; [|split].
  - refine (proj1 (order_change_renders_arrays_of_texts order_detail
                     (seq [str "x"; str "y"; str "z"]) _ _ _ _ _) _
              (seq [str "z"; str "x"; str "y"])
              ["x"; "y"; "z"] ["z"; "x"; "y"] _ _ _ _ _ _ _);
      try solve [discriminate | reflexivity];
      repeat constructor; eexists; split; reflexivity.
  - refine (proj2 (order_change_renders_arrays_of_texts scalar_order_detail
                     (str "x") _ _ _ _ _) _);
      solve [discriminate | reflexivity].
  - split; [exact Hmixed|]. split; [reflexivity|]. split; [reflexivity|].
    refine (proj1 (order_change_renders_arrays_of_texts mixed_order_detail
                     mixed_sequence _ _ _ _ _) _
              (seq [map_ []; str ""; str "x"])
              [dq ++ dq; "x"; "{}"] ["{}"; dq ++ dq; "x"] _ _ _ _ _ _ _);
      try solve [discriminate | reflexivity | exact Hmixed];
      repeat constructor; eexists; split; reflexivity.
Defined.

Lemma addition_renders_To_alone_witness :
  Detail_Kind null_addition = ADDITION
  /\ generateJSONDetailOutput null_addition
     = Returns (mkJSONDiffDetail (string_of_rune ADDITION) "null" "", None)
  /\ String.length "null" = 4
  /\ marshal_detail (mkJSONDiffDetail (string_of_rune ADDITION) "null" "")
     = "{" ++ dq ++ "kind" ++ dq ++ ":" ++ dq ++ "+" ++ dq ++ ","
       ++ dq ++ "addition" ++ dq ++ ":" ++ dq ++ "null" ++ dq ++ "}".
Proof.
  split; [reflexivity|]. split.
  - apply (proj1 (addition_renders_To_alone null_addition eq_refl) eq_refl).
  - split; reflexivity.
Defined.



(** *** Writing *)

(** A sink with room takes the whole document. *)
Example WriteReport_writes_the_document :
  WriteReport (as_json empty_report) (mkSink "" 100)
  = (Returns None, mkSink no_changes_document 75).
Proof. reflexivity. Qed.

(** C9.  The claim asks for a non-nil error whenever a write to the sink
    fails.  On the report without diffs and a sink without room, the
    document is rendered and serialized, the one write of it to the sink
    fails, and [WriteReport] returns a nil error: the error of the deferred
    [Flush] is dropped. *)
Theorem WriteReport_drops_the_error_of_the_deferred_Flush :
  GenReport (as_json empty_report)
  = Returns (mkJSONReportSpec (mkJSONDiffSummary 0) [], None)
  /\ json_Marshal_report (mkJSONReportSpec (mkJSONDiffSummary 0) [])
     = (no_changes_document, None)
  /\ Write (mkSink "" 0) no_changes_document
     = ((0%Z, Some sink_full), mkSink "" 0)
  /\ WriteReport (as_json empty_report) (mkSink "" 0)
     = (Returns None, mkSink "" 0).
Proof.
  split; [reflexivity|]. split; [reflexivity|]. split; [reflexivity|].
  rewrite (WriteReport_small_document (as_json empty_report) (mkSink "" 0)
             (mkJSONReportSpec (mkJSONDiffSummary 0) []) no_changes_document);
    [reflexivity | reflexivity | reflexivity | discriminate|].
  unfold defaultBufSize. vm_compute. repeat constructor.
Qed.

(** A document longer than the buffer: the error of a write made by
    [WriteString] is returned; a sink with room has the whole document
    afterwards; the error of the last write, made by the deferred [Flush],
    is not returned, and the sink has a part of the document. *)
Example WriteReport_on_a_long_document :
  fst (WriteReport (as_json long_report) (mkSink "" 0)) = Returns (Some sink_full)
  /\ (exists doc,
        json_Marshal_report
          (mkJSONReportSpec (mkJSONDiffSummary 1)
             [mkJSONDiff "/blob"
                [mkJSONDiffDetail (string_of_rune ADDITION)
                   (json_quote long_value) ""]])
        = (doc, None)
        /\ WriteReport (as_json long_report) (mkSink "" (2 * defaultBufSize))
           = (Returns None,
              mkSink doc (2 * defaultBufSize - String.length doc)))
  /\ fst (WriteReport (as_json long_report) (mkSink "" defaultBufSize))
     = Returns None
  /\ String.length
       (sink_data
          (snd (WriteReport (as_json long_report) (mkSink "" defaultBufSize))))
     = defaultBufSize
  /\ (exists doc,
        json_Marshal_report
          (mkJSONReportSpec (mkJSONDiffSummary 1)
             [mkJSONDiff "/blob"
                [mkJSONDiffDetail (string_of_rune ADDITION)
                   (json_quote long_value) ""]])
        = (doc, None)
        /\ (defaultBufSize <? String.length doc)%nat = true).
Proof.
  split; [vm_compute; reflexivity|].
  split; [eexists; split; [reflexivity | vm_compute; reflexivity]|].
  split; [vm_compute; reflexivity|].
  split; [vm_compute; reflexivity|].
  eexists. split; [reflexivity | vm_compute; reflexivity].
Qed.

(** *** The filters, continued *)

Lemma Filter_keeps_exact_matches_witness :
  ["spec.name"] <> []
  /\ In name_diff (Report_Diffs (Filter report ["spec.name"]))
  /\ ~ In root_diff (Report_Diffs (Filter report ["spec.name"])).
Proof.
  pose proof (@Filter_keeps_exact_matches paths report ["spec.name"] name_diff
                ltac:(discriminate)) as Hname.
  pose proof (@Filter_keeps_exact_matches paths report ["spec.name"] root_diff
                ltac:(discriminate)) as Hroot.
  split; [discriminate|]. split.
  - apply Hname. split; [simpl; auto|].
    exists ["spec"; "name"], "spec.name", ["spec"; "name"].
    repeat split. simpl. auto.
  - intros Hin. apply Hroot in Hin.
    destruct Hin as (_ & fp & p & path & Hnil & _). discriminate Hnil.
Defined.

Lemma Filter_of_unparsable_paths_is_empty_witness :
  ["a..b"; ""] <> []
  /\ (forall p, In p ["a..b"; ""] -> snd (ParsePathStringUnsafe p) <> None)
  /\ Filter report ["a..b"; ""] = mkReport (file 1) (file 1) [].
Proof.
  assert (H : forall p, In p ["a..b"; ""] -> snd (ParsePathStringUnsafe p) <> None).
  { intros p [<-|[<-|[]]]; discriminate. }
  split; [discriminate|]. split; [exact H|].
  exact (@Filter_of_unparsable_paths_is_empty paths report ["a..b"; ""]
           ltac:(discriminate) H).
Defined.

Lemma spec_is_accepted : forall p, In p ["/spec"] -> ~ refused p.
Proof.
  intros p [<-|[]] [H|H]; [discriminate H | now apply H].
Qed.

Lemma Exclude_keeps_unprefixed_witness :
  ["/spec"] <> []
  /\ snd (Exclude report ["/spec"]) = None
  /\ In root_diff (Report_Diffs (fst (Exclude report ["/spec"])))
  /\ ~ In name_diff (Report_Diffs (fst (Exclude report ["/spec"]))).
Proof.
  pose proof (@Exclude_keeps_unprefixed paths report ["/spec"] root_diff
                ltac:(discriminate) spec_is_accepted) as [Herr Hroot].
  pose proof (@Exclude_keeps_unprefixed paths report ["/spec"] name_diff
                ltac:(discriminate) spec_is_accepted) as [_ Hname].
  split; [discriminate|]. split; [exact Herr|]. split.
  - apply Hroot. split; [simpl; auto | discriminate].
  - intros Hin. apply Hname in Hin. destruct Hin as [_ Hall].
    specialize (Hall ["spec"; "name"] "/spec" eq_refl (or_introl eq_refl)).
    discriminate Hall.
Defined.

Lemma name_compiles :
  forall p, In p ["name"] -> exists re, regexp_Compile p = inl re.
Proof. intros p [<-|[]]. now exists "name". Qed.

Lemma FilterRegexp_keeps_matches_witness :
  ["name"] <> []
  /\ exists r',
       FilterRegexp report ["name"] = Returns r'
       /\ In name_diff (Report_Diffs r')
       /\ ~ In root_diff (Report_Diffs r').
Proof.
  split; [discriminate|].
  destruct (@FilterRegexp_keeps_matches paths regexps report ["name"]
              ltac:(discriminate) name_compiles) as (r' & Hr' & Hin).
  exists r'. split; [exact Hr'|]. split.
  - apply Hin. split; [simpl; auto|].
    exists ["spec"; "name"], "name", "name". repeat split. simpl. auto.
  - intros Hroot. apply Hin in Hroot.
    destruct Hroot as (_ & fp & p & re & Hnil & _). discriminate Hnil.
Defined.

Lemma ExcludeRegexp_keeps_unmatched_witness :
  ["name"] <> []
  /\ exists r',
       ExcludeRegexp report ["name"] = Returns r'
       /\ In root_diff (Report_Diffs r')
       /\ ~ In name_diff (Report_Diffs r').
Proof.
  split; [discriminate|].
  destruct (@ExcludeRegexp_keeps_unmatched paths regexps report ["name"]
              ltac:(discriminate) name_compiles) as (r' & Hr' & Hin).
  exists r'. split; [exact Hr'|]. split.
  - apply Hin. split; [simpl; auto | discriminate].
  - intros Hname. apply Hin in Hname. destruct Hname as [_ Hall].
    specialize (Hall ["spec"; "name"] "name" "name" eq_refl
                  (or_introl eq_refl) eq_refl).
    discriminate Hall.
Defined.

Lemma regexp_filters_partition_the_diffs_witness :
  FilterRegexp report ["name"] = Returns (mkReport (file 1) (file 1) [name_diff])
  /\ ExcludeRegexp report ["name"]
     = Returns (mkReport (file 1) (file 1) [root_diff])
  /\ Permutation ([name_diff] ++ [root_diff]) (Report_Diffs report).
Proof.
  split; [reflexivity|]. split; [reflexivity|].
  exact (proj1 (@regexp_filters_partition_the_diffs paths regexps report
                  (mkReport (file 1) (file 1) [name_diff])
                  (mkReport (file 1) (file 1) [root_diff]) ["name"]
                  ltac:(discriminate) eq_refl eq_refl)).
Defined.

Lemma spec_and_other_are_accepted :
  forall p, In p (["/spec"] ++ ["/other"]) -> ~ refused p.
Proof.
  intros p [<-|[<-|[]]] [H|H]; try discriminate H; now apply H.
Qed.

Lemma Exclude_of_concatenation_witness :
  ["/spec"] <> [] /\ ["/other"] <> []
  /\ Exclude report (["/spec"] ++ ["/other"])
     = Exclude (fst (Exclude report ["/spec"])) ["/other"]
  /\ Exclude report ["/spec"; "/other"]
     = (mkReport (file 1) (file 1) [root_diff], None).
Proof.
  split; [discriminate|]. split; [discriminate|]. split; [|reflexivity].
  exact (@Exclude_of_concatenation paths report ["/spec"] ["/other"]
           ltac:(discriminate) ltac:(discriminate) spec_and_other_are_accepted).
Defined.

(** *** The renderer, continued *)

Lemma removal_renders_From_alone_witness :
  Detail_Kind removal_detail = REMOVAL
  /\ generateJSONDetailOutput removal_detail
     = Returns (mkJSONDiffDetail (string_of_rune REMOVAL) "" "1", None)
  /\ generateJSONDetailOutput (mkDetail None None REMOVAL)
     = Returns (mkJSONDiffDetail (string_of_rune REMOVAL) "" "null", None).
Proof.
  split; [reflexivity|]. split.
  - exact (proj1 (proj2 (@removal_renders_From_alone paths encoders core
                           removal_detail ltac:(discriminate) eq_refl))
             (int "1") "1" eq_refl eq_refl).
  - exact (proj1 (@removal_renders_From_alone paths encoders core
                    (mkDetail None None REMOVAL) ltac:(discriminate) eq_refl)
             eq_refl).
Defined.

Lemma unsupported_kind_fails_the_report_witness :
  Detail_Kind unknown_detail <> ADDITION
  /\ generateJSONDetailOutput unknown_detail
     = Returns (JSONDiffDetail_zero,
                Some (errors_New "unsupported detail type ?"))
  /\ GenReport unknown_report
     = Returns (JSONReportSpec_zero,
                Some (errors_New "unsupported detail type ?")).
Proof.
  pose proof (@unsupported_kind_fails_the_report paths encoders core
                unknown_detail ltac:(discriminate) ltac:(discriminate)
                ltac:(discriminate) ltac:(discriminate)) as [Hdetail Hreport].
  split; [discriminate|]. split; [exact Hdetail|].
  apply (Hreport unknown_report).
  exists [name_diff], odd_diff, [], [null_addition], [].
  split; [reflexivity|]. split; [reflexivity|]. split.
  - constructor; [|constructor]. eexists. reflexivity.
  - constructor; [|constructor]. eexists. reflexivity.
Defined.

Lemma modification_of_other_types_is_serialized_witness :
  humanReadableType (Detail_From mixed_detail) = Returns "string"
  /\ humanReadableType (Detail_To mixed_detail) = Returns "binary"
  /\ generateJSONDetailOutput mixed_detail
     = Returns (mkJSONDiffDetail (string_of_rune MODIFICATION)
                  "aGVsbG8=" (dq ++ "a" ++ dq), None).
Proof.
  split; [reflexivity|]. split; [reflexivity|].
  exact (@modification_of_other_types_is_serialized paths encoders core
           mixed_detail "string" "binary"
           ltac:(discriminate) ltac:(discriminate) eq_refl eq_refl eq_refl
           ltac:(intros [_ H]; discriminate H)
           ltac:(intros [H _]; discriminate H)).
Defined.

Lemma rendered_detail_has_the_kind_of_the_detail_witness :
  generateJSONDetailOutput order_detail
  = Returns (mkJSONDiffDetail (string_of_rune ORDERCHANGE)
               (json_array ["z"; "x"; "y"]) (json_array ["x"; "y"; "z"]), None)
  /\ JSONDiffDetail_Kind
       (mkJSONDiffDetail (string_of_rune ORDERCHANGE)
          (json_array ["z"; "x"; "y"]) (json_array ["x"; "y"; "z"]))
     = string_of_rune (Detail_Kind order_detail).
Proof.
  split; [reflexivity|].
  exact (@rendered_detail_has_the_kind_of_the_detail paths encoders core
           order_detail _ eq_refl).
Defined.

Lemma failed_detail_has_no_fields_witness :
  generateJSONDetailOutput half_binary_detail
  = Returns (mkJSONDiffDetail (string_of_rune MODIFICATION) "" "",
             Some (errors_New "illegal base64 data at input byte 4"))
  /\ JSONDiffDetail_Addition
       (mkJSONDiffDetail (string_of_rune MODIFICATION) "" "") = ""
  /\ JSONDiffDetail_Removal
       (mkJSONDiffDetail (string_of_rune MODIFICATION) "" "") = "".
Proof.
  split; [reflexivity|].
  exact (@failed_detail_has_no_fields paths encoders core
           half_binary_detail _ _ eq_refl).
Defined.

Lemma order_change_of_nil_node_panics_witness :
  Detail_Kind nil_order_detail = ORDERCHANGE
  /\ generateJSONDetailOutput nil_order_detail = Panics
  /\ generateJSONDetailOutput half_order_detail = Panics.
Proof.
  split; [reflexivity|]. split.
  - exact (proj1 (@order_change_of_nil_node_panics paths encoders core
                    nil_order_detail ltac:(discriminate) ltac:(discriminate)
                    ltac:(discriminate) eq_refl) eq_refl).
  - exact (proj2 (@order_change_of_nil_node_panics paths encoders core
                    half_order_detail ltac:(discriminate) ltac:(discriminate)
                    ltac:(discriminate) eq_refl)
             (seq [str "x"]) (json_array ["x"]) eq_refl eq_refl eq_refl eq_refl).
Defined.

(** *** Writing, continued *)

Lemma WriteReport_writes_nothing_on_failure_witness :
  (exists x, GenReport half_binary_report
             = Returns (x, Some (errors_New "illegal base64 data at input byte 4")))
  /\ WriteReport half_binary_report (mkSink "" 100)
     = (Returns (Some (errors_New "illegal base64 data at input byte 4")),
        mkSink "" 100).
Proof.
  assert (H : exists x, GenReport half_binary_report
                        = Returns (x, Some (errors_New
                                              "illegal base64 data at input byte 4")))
    by (eexists; reflexivity).
  split; [exact H|].
  exact (@WriteReport_writes_nothing_on_failure Sink sink_writer paths encoders
           core half_binary_report (mkSink "" 100) _ (or_introl H)).
Defined.

Lemma buffer_accepts_all : @accepts_all string buffer_writer (fun w => w).
Proof. intros w p. split; reflexivity. Qed.

Lemma WriteReport_delivers_the_document_witness :
  GenReport (as_json long_report) = Returns (long_spec, None)
  /\ json_Marshal_report long_spec = (long_document, None)
  /\ (defaultBufSize <? String.length long_document)%nat = true
  /\ fst (WriteReport (as_json long_report) "report: ") = Returns None
  /\ snd (WriteReport (as_json long_report) "report: ")
     = "report: " ++ long_document.
Proof.
  split; [reflexivity|]. split; [reflexivity|].
  split; [vm_compute; reflexivity|].
  exact (@WriteReport_delivers_the_document string buffer_writer paths encoders
           core (fun w => w) (as_json long_report) "report: " long_spec
           long_document buffer_accepts_all eq_refl eq_refl).
Defined.

Lemma long_document_is_long : defaultBufSize < String.length long_document.
Proof. apply Nat.ltb_lt. vm_compute. reflexivity. Qed.

Lemma WriteReport_returns_the_error_of_a_write_witness :
  Write (mkSink "" 0) (str_take defaultBufSize long_document)
  = ((0%Z, Some sink_full), mkSink "" 0)
  /\ WriteReport (as_json long_report) (mkSink "" 0)
     = (Returns (Some sink_full), mkSink "" 0).
Proof.
  assert (H : Write (mkSink "" 0) (str_take defaultBufSize long_document)
              = ((0%Z, Some sink_full), mkSink "" 0))
    by (vm_compute; reflexivity).
  split; [exact H|].
  exact (@WriteReport_returns_the_error_of_a_write Sink sink_writer paths
           encoders core (as_json long_report) (mkSink "" 0) long_spec
           long_document 0%Z sink_full (mkSink "" 0)
           eq_refl eq_refl long_document_is_long H).
Defined.

Lemma WriteReport_reports_a_short_write_witness :
  Write (mkPipe "" 10) (str_take defaultBufSize long_document)
  = ((10%Z, None), mkPipe (str_take 10 long_document) 10)
  /\ WriteReport (as_json long_report) (mkPipe "" 10)
     = (Returns (Some io_ErrShortWrite), mkPipe (str_take 10 long_document) 10).
Proof.
  assert (H : Write (mkPipe "" 10) (str_take defaultBufSize long_document)
              = ((10%Z, None), mkPipe (str_take 10 long_document) 10))
    by (vm_compute; reflexivity).
  split; [exact H|].
  exact (@WriteReport_reports_a_short_write Pipe pipe_writer paths encoders
           core (as_json long_report) (mkPipe "" 10) long_spec long_document
           10%Z (mkPipe (str_take 10 long_document) 10)
           eq_refl eq_refl long_document_is_long H
           ltac:(unfold defaultBufSize; lia)).
Defined.
